(** * volumina.view3d.volumeRendering: label allocation and scene reconciliation

    A shallow embedding of [src/volumina/view3d/volumeRendering.py]:
    the [LabelManager] allocator and the [RenderingManager] that keeps a
    3D scene in step with a labelled volume.

    Python objects are modelled as records, Python sets as [gset Z],
    the dict [_cmap] as a [gmap], numpy arrays as a shape, an element
    type and an element function.  Methods are state transformers that
    return the outcome of the call (a value or the exception raised)
    together with the state left behind, so that a raise keeps every
    mutation made before it, as in Python. *)

From Stdlib Require Import ZArith Lia List Bool String.
From stdpp Require Import base decidable option list numbers gmap fin_sets.

Local Open Scope Z_scope.
#[local] Set Warnings "-clear-no-such-hyp".

(** ** Module constants *)

Definition NOBJECTS : Z := 256.
Definition BG_LABEL : Z := 0.
Definition CURRENT_LABEL : Z := 1.

(** ** Outcomes of a call *)

Inductive exn : Type :=
| RuntimeError (msg : string)
| AssertionError
| AttributeError
| KeyError
| ValueError.

Inductive result (A : Type) : Type :=
| Ok (a : A)
| Raise (e : exn).
Arguments Ok {A} a.
Arguments Raise {A} e.

(** A method of an object with state [S]: outcome and final state. *)
Definition M (S A : Type) : Type := S -> result A * S.

#[export] Instance M_ret {S} : MRet (M S) := fun A a s => (Ok a, s).
#[export] Instance M_bind {S} : MBind (M S) := fun A B k m s =>
  match m s with
  | (Ok a, s') => k a s'
  | (Raise e, s') => (Raise e, s')
  end.

Definition raise {S A} (e : exn) : M S A := fun s => (Raise e, s).
Definition get {S} : M S S := fun s => (Ok s, s).
Definition modify {S} (f : S -> S) : M S unit := fun s => (Ok tt, f s).

(** ** Python sets of integers *)

(** [set(range(lo, hi))] *)
Definition range_set (lo hi : Z) : gset Z := list_to_set (seqZ lo (hi - lo)).

(** [min(X)]; Python raises ValueError on an empty set, here [None]. *)
Definition py_min (X : gset Z) : option Z :=
  match elements X with
  | [] => None
  | x :: l => Some (foldr Z.min x l)
  end.

(** [X.remove(x)]: [None] stands for the KeyError of a missing element. *)
Definition set_remove (x : Z) (X : gset Z) : option (gset Z) :=
  if decide (x ∈ X) then Some (X ∖ {[x]}) else None.

(** [try: X.remove(x)  except KeyError: pass] *)
Definition try_remove (x : Z) (X : gset Z) : gset Z :=
  match set_remove x X with
  | Some X' => X'
  | None => X
  end.

(** ** class LabelManager *)

Module LabelManager.

Record t : Type := mk {
  _available : gset Z;
  _used : gset Z;
  _n : Z
}.

(** [__init__(self, n)] *)
Definition __init__ (n : Z) : t :=
  {| _available := range_set 1 n; _used := ∅; _n := n |}.

(** [request(self)].  [label] is a member of [_available], so the
    [remove] of the source cannot raise. *)
Definition request : M t Z := fun self =>
  if decide (size (_available self) = 0%nat)
  then (Raise (RuntimeError "out of labels"), self)
  else match py_min (_available self) with
       | None => (Raise ValueError, self)
       | Some label =>
           (Ok label,
            {| _available := _available self ∖ {[label]};
               _used := _used self ∪ {[label]};
               _n := _n self |})
       end.

(** [free(self, label=None)].  The [remove] is guarded by the
    membership test. *)
Definition free (label : option Z) : M t unit := fun self =>
  match label with
  | None =>
      (Ok tt, {| _available := range_set 1 (_n self); _used := ∅; _n := _n self |})
  | Some l =>
      if decide (l ∈ _used self)
      then (Ok tt, {| _available := _available self ∪ {[l]};
                      _used := _used self ∖ {[l]};
                      _n := _n self |})
      else (Ok tt, self)
  end.

(** A client's calls, and the state after a sequence of them.  A call
    that raises leaves the allocator as it was at the raise and the
    client carries on. *)
Inductive call : Type :=
| Request
| Free (label : option Z).

Definition step (self : t) (c : call) : t :=
  match c with
  | Request => snd (request self)
  | Free label => snd (free label self)
  end.

Definition run (calls : list call) (self : t) : t := foldl step self calls.

(** [k] successive [request()] calls: their outcomes, in order. *)
Fixpoint request_many (k : nat) (self : t) : list (result Z) * t :=
  match k with
  | O => ([], self)
  | S k' =>
      let '(r, self') := request self in
      let '(rs, self'') := request_many k' self' in
      (r :: rs, self'')
  end.

(** The allocator invariant: [_available] and [_used] partition [[1, _n)]. *)
Definition partitioned (self : t) : Prop :=
  _available self ## _used self /\
  _available self ∪ _used self = range_set 1 (_n self).

End LabelManager.

(** ** numpy arrays

    An array is its shape, its element type and its elements by
    multi-index.  Only integer element types are modelled; elements are
    read at indices within the shape. *)

Module numpy.

Inductive dtype : Type := uint8 | uint16 | int16 | int32 | int64.

(** Conversion of an integer to an element type, as an assignment
    into an array of that type performs it: the low bits are kept. *)
Definition cast (dt : dtype) (z : Z) : Z :=
  match dt with
  | uint8 => z mod 2 ^ 8
  | uint16 => z mod 2 ^ 16
  | int16 => (z + 2 ^ 15) mod 2 ^ 16 - 2 ^ 15
  | int32 => (z + 2 ^ 31) mod 2 ^ 32 - 2 ^ 31
  | int64 => (z + 2 ^ 63) mod 2 ^ 64 - 2 ^ 63
  end.

Record ndarray : Type := mk {
  shape : list nat;
  dtype_of : dtype;
  item : list nat -> Z
}.

(** [idx] addresses an element of an array of shape [sh]. *)
Definition in_bounds (idx sh : list nat) : Prop := Forall2 lt idx sh.

(** All multi-indices of a shape, in C order. *)
Fixpoint indices (sh : list nat) : list (list nat) :=
  match sh with
  | [] => [[]]
  | d :: sh' => i ← seq 0 d; cons i <$> indices sh'
  end.

(** [numpy.zeros(shape, dtype=dt)] *)
Definition zeros (sh : list nat) (dt : dtype) : ndarray :=
  {| shape := sh; dtype_of := dt; item := fun _ => 0 |}.

(** [numpy.transpose(a)]: the axes in reverse order. *)
Definition transpose (a : ndarray) : ndarray :=
  {| shape := rev (shape a); dtype_of := dtype_of a;
     item := fun idx => item a (rev idx) |}.

(** [set(numpy.unique(a))] *)
Definition unique (a : ndarray) : gset Z :=
  list_to_set (item a <$> indices (shape a)).

(** [numpy.any(a != b)] for arrays of one shape. *)
Definition any_ne (a b : ndarray) : bool :=
  existsb (fun idx => negb (item a idx =? item b idx)) (indices (shape b)).

(** [dst[:] = src] for arrays of one shape: [dst] keeps its shape and
    element type, each element of [src] is converted. *)
Definition assign (dst src : ndarray) : ndarray :=
  {| shape := shape dst; dtype_of := dtype_of dst;
     item := fun idx => cast (dtype_of dst) (item src idx) |}.

(** *** Broadcasting

    Two shapes are lined up at their last axes; sizes that meet must be
    equal unless one of them is 1, and a missing axis counts as 1. *)
Definition broadcast_dim (a b : nat) : option nat :=
  if (a =? 1)%nat then Some b
  else if (b =? 1)%nat then Some a
  else if (a =? b)%nat then Some a
  else None.

(** On shapes written last axis first. *)
Fixpoint broadcast_reversed (a b : list nat) : option (list nat) :=
  match a, b with
  | [], _ => Some b
  | _, [] => Some a
  | x :: a', y :: b' =>
      match broadcast_dim x y, broadcast_reversed a' b' with
      | Some d, Some r => Some (d :: r)
      | _, _ => None
      end
  end.

(** The shape of [a op b], or [None] when the shapes do not broadcast. *)
Definition broadcast_shapes (a b : list nat) : option (list nat) :=
  match broadcast_reversed (rev a) (rev b) with
  | Some r => Some (rev r)
  | None => None
  end.

(** Where position [idx] of a broadcast result reads in an operand of
    shape [sh]; both written last axis first.  An axis of size 1 is
    read at 0, an axis the position does not have is read at 0. *)
Fixpoint operand_index_reversed (sh idx : list nat) : list nat :=
  match sh with
  | [] => []
  | d :: sh' =>
      (if (d =? 1)%nat then 0%nat else hd 0%nat idx)
      :: operand_index_reversed sh' (tl idx)
  end.

Definition operand_index (sh idx : list nat) : list nat :=
  rev (operand_index_reversed (rev sh) (rev idx)).

(** [numpy.any(a != b)] for arrays of any shapes: [None] when the
    shapes do not broadcast. *)
Definition any_ne_broadcast (a b : ndarray) : option bool :=
  match broadcast_shapes (shape a) (shape b) with
  | None => None
  | Some sh =>
      Some (existsb (fun idx =>
                       negb (item a (operand_index (shape a) idx)
                             =? item b (operand_index (shape b) idx)))
                    (indices sh))
  end.

(** Assignment ignores axes of size 1 that the source has in front of
    the axes of the destination. *)
Fixpoint strip_leading_ones (ndim : nat) (sh : list nat) : list nat :=
  match sh with
  | 1%nat :: sh' =>
      if (ndim <? length sh)%nat then strip_leading_ones ndim sh' else sh
  | _ => sh
  end.

(** [dst[:] = src] for arrays of any shapes: [None] when [src] does
    not broadcast to the shape of [dst]. *)
Definition assign_broadcast (dst src : ndarray) : option ndarray :=
  let sh := strip_leading_ones (length (shape dst)) (shape src) in
  if bool_decide (broadcast_shapes sh (shape dst) = Some (shape dst))
  then Some {| shape := shape dst; dtype_of := dtype_of dst;
               item := fun idx =>
                 cast (dtype_of dst) (item src (operand_index (shape src) idx)) |}
  else None.

(** [dst[:] = v] for a scalar [v]. *)
Definition fill (dst : ndarray) (v : Z) : ndarray :=
  {| shape := shape dst; dtype_of := dtype_of dst;
     item := fun _ => cast (dtype_of dst) v |}.

(** [numpy.array_equal(a, b)]: same shape, same elements. *)
Definition array_equal (a b : ndarray) : Prop :=
  shape a = shape b /\
  forall idx, in_bounds idx (shape a) -> item a idx = item b idx.

Definition array_equalb (a b : ndarray) : bool :=
  bool_decide (shape a = shape b) &&
  forallb (fun idx => item a idx =? item b idx) (indices (shape a)).

(** Every element is a value of the array's element type. *)
Definition well_typed (a : ndarray) : Prop :=
  forall idx, in_bounds idx (shape a) ->
              cast (dtype_of a) (item a idx) = item a idx.

(** An array literal of three axes. *)
Definition array3 (dt : dtype) (l : list (list (list Z))) : ndarray :=
  {| shape := [length l; length (hd [] l); length (hd [] (hd [] l))];
     dtype_of := dt;
     item := fun idx =>
       match idx with
       | [i; j; k] => nth k (nth j (nth i l []) []) 0
       | _ => 0
       end |}.

End numpy.

(** ** The overview scene

    The scene is a collaborator of [RenderingManager]; its class lives
    outside [volumeRendering.py].  [Mesh] is the type of the geometry
    objects it renders, which this code only passes along. *)

Module Scene.
Section Scene.

Variable Mesh : Type.

(** Modelled from the spec: the state of the scene object behind
    [visible_objects], [has_object] and [set_busy], whose class is not
    in [volumeRendering.py].  [visible_objects] is the scene's set of
    rendered labels, [geometry] the cached mesh per label, [dataShape]
    the ordered dimension sizes of the data.

    [shares_visible_objects] tells what the attribute [visible_objects]
    hands to a caller that reads it: the scene's own set object
    ([true]: the spec, 4.3 step 4, speaks of "a live, externally
    mutable set reference"), or a fresh set with the same elements
    ([false]: a property that copies).  The source runs with either
    kind of scene, and the class that decides is not in this file. *)
Record t : Type := mk {
  visible_objects : gset Z;
  geometry : gmap Z Mesh;
  busy : bool;
  dataShape : list nat;
  shares_visible_objects : bool
}.

(** Modelled from the spec: [has_object(label)], true when the scene
    has cached geometry for [label]. *)
Definition has_object (self : t) (label : Z) : bool :=
  bool_decide (is_Some (geometry self !! label)).

(** Modelled from the spec: [add_object(label, mesh=None)].  With a
    mesh the pair is added to the scene and its geometry cached;
    without, the object is shown from the cached geometry. *)
Definition add_object (label : Z) (mesh : option Mesh) (self : t) : t :=
  {| visible_objects := visible_objects self ∪ {[label]};
     geometry := match mesh with
                 | Some m => <[label := m]> (geometry self)
                 | None => geometry self
                 end;
     busy := busy self;
     dataShape := dataShape self;
     shares_visible_objects := shares_visible_objects self |}.

(** Modelled from the spec: [remove_object(label)] takes the object
    out of the rendered set; its geometry stays cached. *)
Definition remove_object (label : Z) (self : t) : t :=
  {| visible_objects := visible_objects self ∖ {[label]};
     geometry := geometry self;
     busy := busy self;
     dataShape := dataShape self;
     shares_visible_objects := shares_visible_objects self |}.

(** Modelled from the spec: [set_busy(flag)]. *)
Definition set_busy (flag : bool) (self : t) : t :=
  {| visible_objects := visible_objects self;
     geometry := geometry self;
     busy := flag;
     dataShape := dataShape self;
     shares_visible_objects := shares_visible_objects self |}.

(** Modelled from the spec: an in-place change of the scene's own set
    object, made through a reference to it that a scene with
    [shares_visible_objects] has handed out. *)
Definition set_visible_objects (X : gset Z) (self : t) : t :=
  {| visible_objects := X;
     geometry := geometry self;
     busy := busy self;
     dataShape := dataShape self;
     shares_visible_objects := shares_visible_objects self |}.

End Scene.

Arguments mk {Mesh}.
Arguments visible_objects {Mesh}.
Arguments geometry {Mesh}.
Arguments busy {Mesh}.
Arguments dataShape {Mesh}.
Arguments shares_visible_objects {Mesh}.
Arguments has_object {Mesh}.
Arguments add_object {Mesh}.
Arguments remove_object {Mesh}.
Arguments set_busy {Mesh}.
Arguments set_visible_objects {Mesh}.

End Scene.

(** ** class RenderingManager *)

Module RenderingManager.
Import numpy.

(** Calls made to the collaborators, in the order they are made.  The
    log is not a field of the Python object; it records what the
    methods do to the scene and to the mesh worker. *)
Inductive call (Mesh : Type) : Type :=
| remove_object (label : Z)
| add_object (label : Z) (mesh : option Mesh)
| set_busy (flag : bool)
| MeshGenerator (generate : gset Z).
Arguments remove_object {Mesh}.
Arguments add_object {Mesh}.
Arguments set_busy {Mesh}.
Arguments MeshGenerator {Mesh}.

Section RenderingManager.

Variables Color Mesh : Type.

(** The attributes of a [RenderingManager].  [_volume] is [None]
    until [setup] creates the attribute.  [_mesh_thread] holds the
    label set of the worker last started; the worker also gets the
    callback [_on_mesh_generated] and a reference to [_volume]. *)
Record t : Type := mk {
  _overview_scene : Scene.t Mesh;
  labelmgr : LabelManager.t;
  ready : bool;
  _cmap : gmap Z Color;
  _mesh_thread : option (gset Z);
  _dirty : bool;
  _volume : option ndarray;
  calls : list (call Mesh)
}.

Definition with_scene (f : Scene.t Mesh -> Scene.t Mesh) (self : t) : t :=
  mk (f (_overview_scene self)) (labelmgr self) (ready self) (_cmap self)
     (_mesh_thread self) (_dirty self) (_volume self) (calls self).
Definition with_labelmgr (l : LabelManager.t) (self : t) : t :=
  mk (_overview_scene self) l (ready self) (_cmap self)
     (_mesh_thread self) (_dirty self) (_volume self) (calls self).
Definition with_ready (b : bool) (self : t) : t :=
  mk (_overview_scene self) (labelmgr self) b (_cmap self)
     (_mesh_thread self) (_dirty self) (_volume self) (calls self).
Definition with_cmap (f : gmap Z Color -> gmap Z Color) (self : t) : t :=
  mk (_overview_scene self) (labelmgr self) (ready self) (f (_cmap self))
     (_mesh_thread self) (_dirty self) (_volume self) (calls self).
Definition with_mesh_thread (g : option (gset Z)) (self : t) : t :=
  mk (_overview_scene self) (labelmgr self) (ready self) (_cmap self)
     g (_dirty self) (_volume self) (calls self).
Definition with_dirty (b : bool) (self : t) : t :=
  mk (_overview_scene self) (labelmgr self) (ready self) (_cmap self)
     (_mesh_thread self) b (_volume self) (calls self).
Definition with_volume (v : ndarray) (self : t) : t :=
  mk (_overview_scene self) (labelmgr self) (ready self) (_cmap self)
     (_mesh_thread self) (_dirty self) (Some v) (calls self).
Definition logged (c : call Mesh) (self : t) : t :=
  mk (_overview_scene self) (labelmgr self) (ready self) (_cmap self)
     (_mesh_thread self) (_dirty self) (_volume self) (calls self ++ [c]).

(** [self._volume]: AttributeError before [setup]. *)
Definition read_volume : M t ndarray := fun self =>
  match _volume self with
  | Some v => (Ok v, self)
  | None => (Raise AttributeError, self)
  end.

(** A method of [self.labelmgr] run on the manager's allocator. *)
Definition on_labelmgr {A} (m : M LabelManager.t A) : M t A := fun self =>
  let '(r, l) := m (labelmgr self) in (r, with_labelmgr l self).

(** The three scene commands, as the manager issues them. *)
Definition scene_remove_object (label : Z) : M t unit :=
  modify (fun self =>
    logged (remove_object label) (with_scene (Scene.remove_object label) self)).
Definition scene_add_object (label : Z) (mesh : option Mesh) : M t unit :=
  modify (fun self =>
    logged (add_object label mesh) (with_scene (Scene.add_object label mesh) self)).
Definition scene_set_busy (flag : bool) : M t unit :=
  modify (fun self =>
    logged (set_busy flag) (with_scene (Scene.set_busy flag) self)).

(** [for label in X: body(label)].  The order in which Python walks a
    set is not fixed; the model walks [elements X]. *)
Definition for_each (X : gset Z) (body : Z -> M t unit) : M t unit :=
  foldr (fun label rest => body label ;; rest) (mret tt) (elements X).

(** [threading.current_thread().name == 'MainThread'] *)
Definition is_main_thread (thread_name : string) : bool :=
  String.eqb thread_name "MainThread".

(** [__init__(self, overview_scene)].  The handler connected to
    [reinitialized] is [_handle_scene_init] below. *)
Definition __init__ (overview_scene : Scene.t Mesh) : t :=
  {| _overview_scene := overview_scene;
     labelmgr := LabelManager.__init__ NOBJECTS;
     ready := false;
     _cmap := ∅;
     _mesh_thread := None;
     _dirty := false;
     _volume := None;
     calls := [] |}.

(** [setup(self, shape)] *)
Definition setup (shape : list nat) : M t unit :=
  let shape := rev shape in
  modify (with_volume (zeros shape uint8)) ;;
  modify (with_ready true).

(** The set object that a local variable such as [old_labels] names:
    the scene's own set of visible objects, or a set of the caller's. *)
Inductive set_object : Type :=
| scene_visible_objects
| local_set (X : gset Z).

(** Modelled from the spec: reading [self._overview_scene.visible_objects].
    The attribute belongs to the scene class, which is not in
    [volumeRendering.py]; the scene says which kind of object the
    caller gets. *)
Definition read_visible_objects : M t set_object := fun self =>
  let sc := _overview_scene self in
  (Ok (if Scene.shares_visible_objects sc
       then scene_visible_objects
       else local_set (Scene.visible_objects sc)), self).

(** The elements of a set object, now. *)
Definition contents (o : set_object) : M t (gset Z) := fun self =>
  (Ok (match o with
       | scene_visible_objects => Scene.visible_objects (_overview_scene self)
       | local_set X => X
       end), self).

(** [try: o.remove(x)  except KeyError: pass]: the set object is
    changed in place, so when it is the scene's own set the scene
    changes with it.  The result is the object as it now is. *)
Definition try_remove_in_place (x : Z) (o : set_object) : M t set_object :=
  match o with
  | scene_visible_objects =>
      modify (with_scene (fun sc =>
        Scene.set_visible_objects (try_remove x (Scene.visible_objects sc)) sc)) ;;
      mret scene_visible_objects
  | local_set X => mret (local_set (try_remove x X))
  end.

(** [update(self)], run on the thread named [thread_name]. *)
Definition update (thread_name : string) : M t unit :=
  if negb (is_main_thread thread_name) then raise AssertionError else
  self ← get;
  if negb (_dirty self) then mret tt else
  modify (with_dirty false) ;;
  vol ← read_volume;
  let new_labels := unique vol in
  old_labels ← read_visible_objects;
  let new_labels := try_remove BG_LABEL new_labels in
  old ← contents old_labels;
  for_each (old ∖ new_labels) scene_remove_object ;;
  old_labels ← try_remove_in_place CURRENT_LABEL old_labels;
  old ← contents old_labels;
  let labels_to_add := new_labels ∖ old in
  self ← get;
  let known : gset Z :=
    filter (fun l => Is_true (Scene.has_object (_overview_scene self) l)) labels_to_add in
  let generate := labels_to_add ∖ known in
  let '(known, generate) :=
    match set_remove CURRENT_LABEL known with
    | Some known' => (known', generate ∪ {[CURRENT_LABEL]})
    | None => (known, generate)
    end in
  for_each known (fun label => scene_add_object label None) ;;
  if decide (generate ≠ ∅) then
    scene_set_busy true ;;
    modify (fun self => logged (MeshGenerator generate)
                          (with_mesh_thread (Some generate) self))
  else mret tt.

(** [_on_mesh_generated(self, label, mesh)] *)
Definition _on_mesh_generated (thread_name : string)
    (label : Z) (mesh : option Mesh) : M t unit :=
  if negb (is_main_thread thread_name) then raise AssertionError else
  match mesh with
  | None => if decide (label = 0) then scene_set_busy false
            else scene_add_object label mesh
  | Some _ => scene_add_object label mesh
  end.

(** [setColor(self, label, color)] *)
Definition setColor (label : Z) (color : Color) : M t unit :=
  modify (with_cmap (insert label color)).

(** The [volume] property, read. *)
Definition volume : M t ndarray :=
  vol ← read_volume;
  mret (transpose vol).

(** The [volume] property, written.  For a value whose transposed
    shape is that of the buffer the comparison and the copy go element
    by element.  For any other shape numpy broadcasts: the comparison
    raises ValueError when the two shapes do not broadcast (older
    numpy answers True and the copy then raises it), and the copy
    raises ValueError when the value does not broadcast to the
    buffer's shape; neither raise has changed anything. *)
Definition volume_setter (thread_name : string) (value : ndarray) : M t unit :=
  let new_volume := transpose value in
  vol ← read_volume;
  if bool_decide (shape new_volume = shape vol) then
    if any_ne new_volume vol then
      modify (with_volume (assign vol new_volume)) ;;
      modify (with_dirty true) ;;
      update thread_name
    else mret tt
  else
    match any_ne_broadcast new_volume vol with
    | None => raise ValueError
    | Some false => mret tt
    | Some true =>
        match assign_broadcast vol new_volume with
        | None => raise ValueError
        | Some vol' =>
            modify (with_volume vol') ;;
            modify (with_dirty true) ;;
            update thread_name
        end
    end.

(** [addObject(self, color=None)].  [random_color] is the colour that
    [colorsys.hsv_to_rgb(numpy.random.random(), 1.0, 1.0)] would give. *)
Definition addObject (color : option Color) (random_color : Color) : M t Z :=
  label ← on_labelmgr LabelManager.request;
  let color := match color with Some c => c | None => random_color end in
  setColor label color ;;
  mret label.

(** [removeObject(self, label)] *)
Definition removeObject (label : option Z) : M t unit :=
  on_labelmgr (LabelManager.free label).

(** [clear(self)] *)
Definition clear : M t unit :=
  vol ← read_volume;
  modify (with_volume (fill vol 0)) ;;
  on_labelmgr (LabelManager.free None).

(** The handler of the scene's [reinitialized] signal. *)
Definition _handle_scene_init (thread_name : string) : M t unit :=
  self ← get;
  setup (Scene.dataShape (_overview_scene self)) ;;
  update thread_name.

(** What can happen to a manager: a call of one of its methods, or a
    change that the scene undergoes on its own. *)
Inductive op : Type :=
| Setup (shape : list nat)
| Update (thread_name : string)
| OnMeshGenerated (thread_name : string) (label : Z) (mesh : option Mesh)
| SetColor (label : Z) (color : Color)
| GetVolume
| SetVolume (thread_name : string) (value : ndarray)
| AddObject (color : option Color) (random_color : Color)
| RemoveObject (label : option Z)
| Clear
| SceneReinitialized (thread_name : string)
| SceneChanged (f : Scene.t Mesh -> Scene.t Mesh).

Definition step (self : t) (o : op) : t :=
  match o with
  | Setup shape => snd (setup shape self)
  | Update th => snd (update th self)
  | OnMeshGenerated th label mesh => snd (_on_mesh_generated th label mesh self)
  | SetColor label color => snd (setColor label color self)
  | GetVolume => snd (volume self)
  | SetVolume th value => snd (volume_setter th value self)
  | AddObject color rnd => snd (addObject color rnd self)
  | RemoveObject label => snd (removeObject label self)
  | Clear => snd (clear self)
  | SceneReinitialized th => snd (_handle_scene_init th self)
  | SceneChanged f => with_scene f self
  end.

(** The manager after a history of operations; one that raises leaves
    the state it had reached, and the history goes on. *)
Definition run (ops : list op) (self : t) : t := foldl step self ops.

(** The state a reconciliation pass leaves and the commands it logs,
    given the three label sets it has worked out: the labels it
    removes, those it adds from the cache and those it hands to the
    mesh worker.  [update_pass] below proves that [update] computes
    this state.  [CURRENT_LABEL] leaves the scene's set without a
    command only when [old_labels] is that very set. *)
Definition after_pass (self : t) (removed known generate : gset Z) : t :=
  let sc := _overview_scene self in
  mk (Scene.mk
        ((if Scene.shares_visible_objects sc
          then (Scene.visible_objects sc ∖ removed) ∖ {[CURRENT_LABEL]}
          else Scene.visible_objects sc ∖ removed) ∪ known)
        (Scene.geometry sc)
        (if decide (generate ≠ ∅) then true else Scene.busy sc)
        (Scene.dataShape sc)
        (Scene.shares_visible_objects sc))
     (labelmgr self) (ready self) (_cmap self)
     (if decide (generate ≠ ∅) then Some generate else _mesh_thread self)
     false (_volume self)
     (calls self ++ (remove_object <$> elements removed)
                 ++ ((fun label => add_object label None) <$> elements known)
                 ++ (if decide (generate ≠ ∅)
                     then [set_busy true; MeshGenerator generate] else [])).

(** The buffer, once [setup] has made it, holds 8-bit unsigned values. *)
Definition volume_is_uint8 (self : t) : Prop :=
  forall vol, _volume self = Some vol -> dtype_of vol = uint8 /\ well_typed vol.

End RenderingManager.

Arguments mk {Color Mesh}.
Arguments _overview_scene {Color Mesh}.
Arguments labelmgr {Color Mesh}.
Arguments ready {Color Mesh}.
Arguments _cmap {Color Mesh}.
Arguments _mesh_thread {Color Mesh}.
Arguments _dirty {Color Mesh}.
Arguments _volume {Color Mesh}.
Arguments calls {Color Mesh}.
Arguments with_scene {Color Mesh}.
Arguments with_labelmgr {Color Mesh}.
Arguments with_ready {Color Mesh}.
Arguments with_cmap {Color Mesh}.
Arguments with_mesh_thread {Color Mesh}.
Arguments with_dirty {Color Mesh}.
Arguments with_volume {Color Mesh}.
Arguments logged {Color Mesh}.
Arguments read_volume {Color Mesh}.
Arguments scene_remove_object {Color Mesh}.
Arguments scene_add_object {Color Mesh}.
Arguments scene_set_busy {Color Mesh}.
Arguments for_each {Color Mesh}.
Arguments __init__ {Color Mesh}.
Arguments setup {Color Mesh}.
Arguments update {Color Mesh}.
Arguments _on_mesh_generated {Color Mesh}.
Arguments setColor {Color Mesh}.
Arguments volume {Color Mesh}.
Arguments volume_setter {Color Mesh}.
Arguments addObject {Color Mesh}.
Arguments removeObject {Color Mesh}.
Arguments clear {Color Mesh}.
Arguments _handle_scene_init {Color Mesh}.
Arguments step {Color Mesh}.
Arguments run {Color Mesh}.
Arguments on_labelmgr {Color Mesh A}.
Arguments Setup {Color Mesh}.
Arguments Update {Color Mesh}.
Arguments OnMeshGenerated {Color Mesh}.
Arguments SetColor {Color Mesh}.
Arguments GetVolume {Color Mesh}.
Arguments SetVolume {Color Mesh}.
Arguments AddObject {Color Mesh}.
Arguments RemoveObject {Color Mesh}.
Arguments Clear {Color Mesh}.
Arguments SceneReinitialized {Color Mesh}.
Arguments SceneChanged {Color Mesh}.
Arguments after_pass {Color Mesh}.
Arguments read_visible_objects {Color Mesh}.
Arguments contents {Color Mesh}.
Arguments try_remove_in_place {Color Mesh}.
Arguments volume_is_uint8 {Color Mesh}.

End RenderingManager.

(** ** Concrete managers

    Colours and meshes are never inspected, so [unit] stands for both.
    The scenes are of the kind the spec describes: they hand out their
    own set of visible objects. *)

Module Examples.
Import numpy RenderingManager.

Definition manager (visible : gset Z) (geometry : gmap Z unit)
    (dirty : bool) (vol : ndarray) : t unit unit :=
  {| _overview_scene := Scene.mk visible geometry false [1; 1; 1]%nat true;
     labelmgr := LabelManager.__init__ NOBJECTS;
     ready := true;
     _cmap := ∅;
     _mesh_thread := None;
     _dirty := dirty;
     _volume := Some vol;
     calls := [] |}.

(** The volume holds the labels 0, 2 and 3; the scene shows 2 and 4
    and has geometry cached for both, none for 3. *)
Definition scenario2 : t unit unit :=
  manager {[2; 4]} {[2 := tt; 4 := tt]} true
          (array3 uint8 [[[0]]; [[2]]; [[3]]]).

(** The volume holds the current label, which the scene shows and
    has geometry cached for. *)
Definition current_shown : t unit unit :=
  manager {[1]} {[1 := tt]} true (array3 uint8 [[[1]]]).

(** A manager right after [setup((1, 1, 1))] on an empty scene. *)
Definition fresh : t unit unit :=
  snd (setup [1; 1; 1]%nat (__init__ (Scene.mk ∅ ∅ false [1; 1; 1]%nat true))).

(** [fresh] after its volume was set to [[[2]]] from the main thread
    and the worker has delivered the mesh of label 2 and signalled
    the end of its batch: the scene shows the object 2. *)
Definition labelled : t unit unit :=
  run [SetVolume "MainThread" (array3 int32 [[[2]]]);
       OnMeshGenerated "MainThread" 2 (Some tt);
       OnMeshGenerated "MainThread" 0 None] fresh.

(** [fresh] after [addObject()] has handed out label 1. *)
Definition one_object : t unit unit :=
  snd (addObject (Some tt) tt fresh).

End Examples.

(** ** Histories of a manager *)

Module Histories.
Import numpy RenderingManager.

Section Histories.

Variables Color Mesh : Type.

(** The operation, if it names a thread, names the main thread. *)
Definition on_main_thread (o : op Color Mesh) : Prop :=
  match o with
  | Update th | OnMeshGenerated th _ _ | SetVolume th _
  | SceneReinitialized th => is_main_thread th = true
  | _ => True
  end.

(** The callbacks of a mesh worker that has finished its batch:
    [_on_mesh_generated(label, mesh)] for each mesh it made, in the
    order it made them, then the closing [_on_mesh_generated(0, None)]. *)
Definition batch_done (meshes : list (Z * Mesh)) : list (op Color Mesh) :=
  ((fun d => OnMeshGenerated "MainThread" (fst d) (Some (snd d))) <$> meshes)
  ++ [OnMeshGenerated "MainThread" 0 None].

(** The manager's allocator is the one [__init__] made, in a state
    that partitions [[1, NOBJECTS)]. *)
Definition allocator_sound (self : t Color Mesh) : Prop :=
  LabelManager.partitioned (labelmgr self) /\
  LabelManager._n (labelmgr self) = NOBJECTS.

(** Every label in use has an entry in the colour map. *)
Definition used_labels_coloured (self : t Color Mesh) : Prop :=
  forall label, label ∈ LabelManager._used (labelmgr self) ->
                is_Some (_cmap self !! label).

End Histories.

Arguments on_main_thread {Color Mesh}.
Arguments batch_done {Color Mesh}.
Arguments allocator_sound {Color Mesh}.
Arguments used_labels_coloured {Color Mesh}.

End Histories.

(** ** More concrete managers *)

Module MoreExamples.
Import numpy RenderingManager Examples.

(** The scene shows the objects 2 and 5; the volume holds background
    only. *)
Definition emptied : t unit unit :=
  manager {[2; 5]} {[2 := tt]} true (array3 uint8 [[[0]]]).

(** The volume holds the labels 0, 2 and 3; the scene shows 2 and has
    geometry cached for 2 and 3. *)
Definition all_cached : t unit unit :=
  manager {[2]} {[2 := tt; 3 := tt]} true (array3 uint8 [[[0]]; [[2]]; [[3]]]).

(** [current_shown] with a scene that hands out copies of its set of
    visible objects. *)
Definition current_shown_copying : t unit unit :=
  with_scene (fun sc =>
    Scene.mk (Scene.visible_objects sc) (Scene.geometry sc) (Scene.busy sc)
             (Scene.dataShape sc) false) current_shown.

(** A manager right after [setup((1, 1, 2))] on an empty scene. *)
Definition fresh_pair : t unit unit :=
  snd (setup [1; 1; 2]%nat (__init__ (Scene.mk ∅ ∅ false [1; 1; 2]%nat true))).

(** An empty scene whose data has shape (1, 1, 1). *)
Definition empty_scene : Scene.t unit := Scene.mk ∅ ∅ false [1; 1; 1]%nat true.

End MoreExamples.

(** * Properties *)

(** ** Sets of integers *)

Lemma elem_of_range_set lo hi x : x ∈ range_set lo hi <-> lo <= x < hi.
Proof.
  unfold range_set. rewrite elem_of_list_to_set, elem_of_seqZ. lia.
Qed.

Lemma foldr_min_le (x : Z) l : foldr Z.min x l <= x /\ Forall (fun y => foldr Z.min x l <= y) l.
Proof.
  induction l as [|a l [IH1 IH2]]; simpl.
  - split; [lia | constructor].
  - split; [lia |]. constructor; [lia |].
    eapply Forall_impl; [exact IH2 |]. simpl. intros; lia.
Qed.

Lemma foldr_min_elem (x : Z) l : foldr Z.min x l = x \/ foldr Z.min x l ∈ l.
Proof.
  induction l as [|a l IH]; simpl; [now left |].
  destruct (Z.min_spec a (foldr Z.min x l)) as [[_ ->]|[_ ->]].
  - right. left.
  - destruct IH as [->|IH]; [now left | right; now right].
Qed.

Lemma py_min_spec (X : gset Z) :
  X ≠ ∅ -> exists m, py_min X = Some m /\ m ∈ X /\ forall y, y ∈ X -> m <= y.
Proof.
  intros HX. unfold py_min.
  destruct (elements X) as [|x l] eqn:E.
  { apply elements_empty_inv in E. apply leibniz_equiv in E. contradiction. }
  exists (foldr Z.min x l). split; [reflexivity |].
  destruct (foldr_min_le x l) as [Hx Hl]. split.
  - apply elem_of_elements. rewrite E.
    destruct (foldr_min_elem x l) as [->|H]; [left | now right].
  - intros y Hy. apply elem_of_elements in Hy. rewrite E in Hy.
    apply elem_of_cons in Hy as [->|Hy]; [exact Hx |].
    rewrite Forall_forall in Hl. now apply Hl.
Qed.

Lemma py_min_unique (X : gset Z) m :
  m ∈ X -> (forall y, y ∈ X -> m <= y) -> py_min X = Some m.
Proof.
  intros Hm Hle.
  destruct (py_min_spec X) as (m' & -> & Hm' & Hle'); [set_solver |].
  f_equal. apply Z.le_antisymm; auto.
Qed.

Lemma py_min_empty : py_min ∅ = None.
Proof. unfold py_min. now rewrite elements_empty. Qed.

Lemma try_remove_difference x (X : gset Z) : try_remove x X = X ∖ {[x]}.
Proof.
  unfold try_remove, set_remove. case_decide; [reflexivity |].
  apply set_eq. intros y. rewrite elem_of_difference, elem_of_singleton.
  split; [intros Hy; split; [exact Hy | congruence] | tauto].
Qed.

Lemma range_set_empty lo hi : hi <= lo -> range_set lo hi = ∅.
Proof.
  intros H. apply set_eq. intros x.
  rewrite elem_of_range_set, elem_of_empty. lia.
Qed.

Lemma range_set_drop_first lo hi :
  range_set lo hi ∖ {[lo]} = range_set (lo + 1) hi.
Proof.
  apply set_eq. intros x.
  rewrite elem_of_difference, !elem_of_range_set, elem_of_singleton. lia.
Qed.

Lemma range_set_snoc lo hi :
  lo <= hi -> range_set lo hi ∪ {[hi]} = range_set lo (hi + 1).
Proof.
  intros H. apply set_eq. intros x.
  rewrite elem_of_union, !elem_of_range_set, elem_of_singleton. lia.
Qed.

(** ** LabelManager *)

Module LabelManagerFacts.
Import LabelManager.

Lemma request_nonempty (self : t) :
  _available self ≠ ∅ ->
  exists label,
    request self =
      (Ok label, {| _available := _available self ∖ {[label]};
                    _used := _used self ∪ {[label]};
                    _n := _n self |}) /\
    label ∈ _available self /\
    forall y, y ∈ _available self -> label <= y.
Proof.
  intros Hne. destruct (py_min_spec _ Hne) as (m & Hm & Hin & Hle).
  exists m. unfold request. rewrite Hm.
  case_decide as Hsz; [| auto].
  apply size_empty_iff, leibniz_equiv in Hsz. contradiction.
Qed.

Lemma request_empty (self : t) :
  _available self = ∅ ->
  request self = (Raise (RuntimeError "out of labels"), self).
Proof.
  intros He. unfold request. rewrite He.
  case_decide as Hsz; [reflexivity |].
  exfalso. apply Hsz. apply size_empty.
Qed.

Lemma request_partitioned (self : t) :
  partitioned self ->
  partitioned (snd (request self)) /\ _n (snd (request self)) = _n self.
Proof.
  intros [Hd Hu].
  destruct (decide (_available self = ∅)) as [He|Hne].
  - rewrite (request_empty _ He). simpl. split; [split |]; auto.
  - destruct (request_nonempty _ Hne) as (l & -> & Hl & _). simpl.
    split; [split |]; simpl; [set_solver | | reflexivity].
    rewrite <- Hu. apply set_eq. intros x.
    rewrite !elem_of_union, elem_of_difference, elem_of_singleton.
    destruct (decide (x = l)) as [->|]; tauto.
Qed.

Lemma free_partitioned label (self : t) :
  partitioned self ->
  partitioned (snd (free label self)) /\ _n (snd (free label self)) = _n self.
Proof.
  intros [Hd Hu]. unfold free.
  destruct label as [l|]; [case_decide as Hl |]; simpl.
  - split; [split |]; simpl; [set_solver | | reflexivity].
    rewrite <- Hu. apply set_eq. intros x.
    rewrite !elem_of_union, elem_of_difference, elem_of_singleton.
    destruct (decide (x = l)) as [->|]; tauto.
  - split; [split |]; auto.
  - split; [split |]; simpl; [set_solver | set_solver | reflexivity].
Qed.

Lemma init_partitioned n : partitioned (__init__ n).
Proof. split; simpl; set_solver. Qed.

Lemma step_partitioned (self : t) c :
  partitioned self ->
  partitioned (step self c) /\ _n (step self c) = _n self.
Proof.
  destruct c; simpl; [apply request_partitioned | apply free_partitioned].
Qed.

Lemma run_partitioned calls : forall self,
  partitioned self ->
  partitioned (run calls self) /\ _n (run calls self) = _n self.
Proof.
  induction calls as [|c calls IH]; intros self H; simpl; [auto |].
  destruct (step_partitioned self c H) as [H' Hn].
  destruct (IH _ H') as [H'' Hn']. split; [exact H'' | congruence].
Qed.

(** The [k] requests that follow [lo - 1] requests on a fresh allocator
    hand out [lo], [lo + 1], ... in turn. *)
Lemma request_many_consecutive (k : nat) : forall lo n,
  1 <= lo -> lo + Z.of_nat k <= n ->
  request_many k {| _available := range_set lo n;
                    _used := range_set 1 lo; _n := n |} =
    (Ok <$> seqZ lo (Z.of_nat k),
     {| _available := range_set (lo + Z.of_nat k) n;
        _used := range_set 1 (lo + Z.of_nat k); _n := n |}).
Proof.
  induction k as [|k IH]; intros lo n Hlo Hk.
  - simpl. rewrite Z.add_0_r. reflexivity.
  - cbn [request_many].
    assert (Hin : lo ∈ range_set lo n) by (apply elem_of_range_set; lia).
    assert (Hmin : py_min (range_set lo n) = Some lo).
    { apply py_min_unique; [exact Hin |].
      intros y Hy. apply elem_of_range_set in Hy. lia. }
    destruct (request_nonempty
                {| _available := range_set lo n; _used := range_set 1 lo; _n := n |})
      as (l & Hreq & Hl & Hle); [simpl; set_solver |].
    simpl in Hl, Hle.
    assert (l = lo) as ->.
    { apply Z.le_antisymm; [apply Hle, Hin |].
      apply elem_of_range_set in Hl. lia. }
    rewrite Hreq. simpl.
    rewrite range_set_drop_first, range_set_snoc by lia.
    rewrite IH by lia.
    replace (lo + 1 + Z.of_nat k) with (lo + Z.of_nat (S k)) by lia.
    f_equal. rewrite (seqZ_cons lo (Z.of_nat (S k))) by lia.
    rewrite fmap_cons. do 2 f_equal; f_equal; lia.
Qed.

Lemma request_many_fresh (k : nat) (n : Z) :
  1 + Z.of_nat k <= n ->
  request_many k (__init__ n) =
    (Ok <$> seqZ 1 (Z.of_nat k),
     {| _available := range_set (1 + Z.of_nat k) n;
        _used := range_set 1 (1 + Z.of_nat k); _n := n |}).
Proof.
  intros Hk. unfold __init__.
  rewrite <- (range_set_empty 1 1) by lia.
  apply request_many_consecutive; lia.
Qed.

(** C2: whatever sequence of [request()] and [free()] calls a
    [LabelManager] built with capacity [n] has served, raising and
    idle calls included, [_available] and [_used] are disjoint and
    their union is exactly the integers of [[1, n)]. *)
Theorem available_used_partition (n : Z) (calls : list call) :
  let self := run calls (__init__ n) in
  _available self ## _used self /\
  _available self ∪ _used self = range_set 1 n /\
  (forall x, x ∈ _available self ∪ _used self <-> 1 <= x < n).
Proof.
  destruct (run_partitioned calls _ (init_partitioned n)) as [[Hd Hu] Hn].
  simpl in Hn. rewrite Hn in Hu. cbv zeta.
  split; [exact Hd |]. split; [exact Hu |].
  intros x. rewrite Hu. apply elem_of_range_set.
Qed.

(** C8: with [_available] non-empty, [request()] returns its smallest
    member and moves that label, and no other, from [_available] to
    [_used]; with [_available] empty it raises the out-of-labels error
    and changes nothing.  On a fresh allocator of capacity 256 the
    first 255 calls return 1, ..., 255 and the 256th raises. *)
Theorem request_smallest_or_out_of_labels :
  (forall self : t,
     _available self ≠ ∅ ->
     exists label,
       request self =
         (Ok label, {| _available := _available self ∖ {[label]};
                       _used := _used self ∪ {[label]};
                       _n := _n self |}) /\
       label ∈ _available self /\
       forall y, y ∈ _available self -> label <= y) /\
  (forall self : t,
     _available self = ∅ ->
     request self = (Raise (RuntimeError "out of labels"), self)) /\
  (fst (request_many 255 (__init__ NOBJECTS)) = Ok <$> seqZ 1 255 /\
   request (snd (request_many 255 (__init__ NOBJECTS))) =
     (Raise (RuntimeError "out of labels"),
      snd (request_many 255 (__init__ NOBJECTS)))).
Proof.
  split; [exact request_nonempty |]. split; [exact request_empty |].
  rewrite (request_many_fresh 255 NOBJECTS) by (unfold NOBJECTS; lia).
  cbn [fst snd]. split.
  - change (Z.of_nat 255) with 255. reflexivity.
  - apply request_empty. cbn [_available].
    apply range_set_empty. unfold NOBJECTS. lia.
Qed.

Lemma request_smallest_or_out_of_labels_witness :
  (exists label,
     request (__init__ 3) =
       (Ok label, {| _available := range_set 1 3 ∖ {[label]};
                     _used := ∅ ∪ {[label]}; _n := 3 |}) /\
     label ∈ range_set 1 3 /\
     forall y, y ∈ range_set 1 3 -> label <= y) /\
  request {| _available := ∅; _used := range_set 1 3; _n := 3 |} =
    (Raise (RuntimeError "out of labels"),
     {| _available := ∅; _used := range_set 1 3; _n := 3 |}).
Proof.
  split.
  - apply (proj1 request_smallest_or_out_of_labels (__init__ 3)).
    simpl. intros H. apply (f_equal (fun X => bool_decide (1 ∈ X))) in H.
    vm_compute in H. discriminate.
  - apply (proj1 (proj2 request_smallest_or_out_of_labels)
             {| _available := ∅; _used := range_set 1 3; _n := 3 |}).
    reflexivity.
Defined.

End LabelManagerFacts.

(** ** numpy arrays *)

Module numpyFacts.
Import numpy.

Lemma elem_of_indices sh : forall idx, idx ∈ indices sh <-> in_bounds idx sh.
Proof.
  unfold in_bounds. induction sh as [|d sh IH]; intros idx; simpl.
  - rewrite list_elem_of_singleton. split.
    + intros ->. constructor.
    + intros H. inversion H. reflexivity.
  - rewrite list_elem_of_bind. split.
    + intros (i & Hidx & Hi). apply list_elem_of_fmap in Hidx as (tl & -> & Htl).
      apply elem_of_seq in Hi. constructor; [lia | now apply IH].
    + intros H. inversion H as [|i ? tl ? Hi Htl]; subst.
      exists i. split; [| apply elem_of_seq; lia].
      apply list_elem_of_fmap. exists tl. split; [reflexivity | now apply IH].
Qed.

Lemma in_bounds_rev_1 idx sh : in_bounds idx sh -> in_bounds (rev idx) (rev sh).
Proof.
  unfold in_bounds. induction 1 as [|i d idx sh Hi H IH]; simpl; [constructor |].
  apply Forall2_app; [exact IH | repeat constructor; exact Hi].
Qed.

Lemma in_bounds_rev idx sh : in_bounds (rev idx) (rev sh) <-> in_bounds idx sh.
Proof.
  split; [| apply in_bounds_rev_1].
  intros H. apply in_bounds_rev_1 in H. now rewrite !rev_involutive in H.
Qed.

Lemma in_bounds_rev_l idx sh : in_bounds (rev idx) sh <-> in_bounds idx (rev sh).
Proof. rewrite <- (rev_involutive sh) at 1. apply in_bounds_rev. Qed.

Lemma any_ne_false a b :
  any_ne a b = false <->
  forall idx, in_bounds idx (shape b) -> item a idx = item b idx.
Proof.
  unfold any_ne. split.
  - intros H idx Hidx. apply elem_of_indices, list_elem_of_In in Hidx.
    destruct (Z.eqb_spec (item a idx) (item b idx)) as [|Hne]; [assumption |].
    assert (existsb (fun idx => negb (item a idx =? item b idx))
                    (indices (shape b)) = true) as Ht; [| congruence].
    apply existsb_exists. exists idx. split; [exact Hidx |].
    now apply negb_true_iff, Z.eqb_neq.
  - intros H. apply not_true_iff_false. intros Ht.
    apply existsb_exists in Ht as (idx & Hidx & Hne).
    apply negb_true_iff, Z.eqb_neq in Hne. apply Hne, H.
    now apply elem_of_indices, list_elem_of_In.
Qed.

Lemma array_equalb_spec a b : array_equalb a b = true <-> array_equal a b.
Proof.
  unfold array_equalb, array_equal.
  rewrite andb_true_iff, bool_decide_eq_true, forallb_forall.
  split; intros [Hs H]; (split; [exact Hs |]); intros idx Hidx.
  - apply Z.eqb_eq, H. now apply list_elem_of_In, elem_of_indices.
  - apply Z.eqb_eq, H. now apply elem_of_indices, list_elem_of_In.
Qed.

Lemma transpose_involutive a : array_equal (transpose (transpose a)) a.
Proof.
  split; simpl; [apply rev_involutive |].
  intros idx _. now rewrite rev_involutive.
Qed.

Lemma elem_of_unique a x :
  x ∈ unique a <-> exists idx, in_bounds idx (shape a) /\ item a idx = x.
Proof.
  unfold unique. rewrite elem_of_list_to_set, list_elem_of_fmap.
  split; intros (idx & H1 & H2).
  - exists idx. split; [now apply elem_of_indices | congruence].
  - exists idx. split; [congruence | now apply elem_of_indices].
Qed.

Lemma cast_uint8_range z : 0 <= cast uint8 z < 256.
Proof. simpl. apply Z.mod_pos_bound. lia. Qed.

Lemma cast_idempotent dt z : cast dt (cast dt z) = cast dt z.
Proof.
  destruct dt; simpl.
  - apply Z.mod_mod; lia.
  - apply Z.mod_mod; lia.
  - replace ((z + 2 ^ 15) mod 2 ^ 16 - 2 ^ 15 + 2 ^ 15)
      with ((z + 2 ^ 15) mod 2 ^ 16) by lia.
    rewrite Z.mod_mod; lia.
  - replace ((z + 2 ^ 31) mod 2 ^ 32 - 2 ^ 31 + 2 ^ 31)
      with ((z + 2 ^ 31) mod 2 ^ 32) by lia.
    rewrite Z.mod_mod; lia.
  - replace ((z + 2 ^ 63) mod 2 ^ 64 - 2 ^ 63 + 2 ^ 63)
      with ((z + 2 ^ 63) mod 2 ^ 64) by lia.
    rewrite Z.mod_mod; lia.
Qed.

Lemma zeros_well_typed sh dt : well_typed (zeros sh dt).
Proof. intros idx _. destruct dt; reflexivity. Qed.

Lemma assign_well_typed dst src : well_typed (assign dst src).
Proof. intros idx _. simpl. apply cast_idempotent. Qed.

Lemma fill_well_typed dst v : well_typed (fill dst v).
Proof. intros idx _. simpl. apply cast_idempotent. Qed.

Lemma assign_broadcast_Some dst src w :
  assign_broadcast dst src = Some w ->
  dtype_of w = dtype_of dst /\ shape w = shape dst /\ well_typed w.
Proof.
  unfold assign_broadcast. case_bool_decide; [| discriminate].
  intros Hw. injection Hw as <-. split; [reflexivity |]. split; [reflexivity |].
  intros idx _. simpl. apply cast_idempotent.
Qed.

End numpyFacts.

(** ** RenderingManager *)

Module RenderingManagerFacts.
Import numpy numpyFacts RenderingManager.

Section Facts.

Context {Color Mesh : Type}.
Implicit Types (self : t Color Mesh) (vol value : ndarray).

Lemma for_each_modify (X : gset Z) (f : Z -> t Color Mesh -> t Color Mesh) self :
  for_each X (fun label => modify (f label)) self =
    (Ok tt, foldl (fun s label => f label s) self (elements X)).
Proof.
  unfold for_each. generalize (elements X). intros ls. revert self.
  induction ls as [|l ls IH]; intros self; simpl; [reflexivity |].
  unfold mbind, M_bind, modify at 1. simpl. apply IH.
Qed.

Lemma foldl_remove_object (ls : list Z) : forall self,
  foldl (fun s label =>
           logged (remove_object label)
                  (with_scene (Scene.remove_object label) s)) self ls =
    mk (Scene.set_visible_objects
          (Scene.visible_objects (_overview_scene self) ∖ list_to_set ls)
          (_overview_scene self))
       (labelmgr self) (ready self) (_cmap self) (_mesh_thread self)
       (_dirty self) (_volume self)
       (calls self ++ (remove_object <$> ls)).
Proof.
  induction ls as [|l ls IH]; intros [[vis geo b sh] lm rd cm mt d v cs]; simpl.
  - unfold Scene.set_visible_objects. simpl.
    rewrite app_nil_r, difference_empty_L. reflexivity.
  - rewrite IH. unfold Scene.set_visible_objects, logged, with_scene. simpl.
    rewrite <- app_assoc. simpl. do 2 f_equal. set_solver.
Qed.

Lemma foldl_add_object (ls : list Z) : forall self,
  foldl (fun s label =>
           logged (add_object label None)
                  (with_scene (Scene.add_object label None) s)) self ls =
    mk (Scene.set_visible_objects
          (Scene.visible_objects (_overview_scene self) ∪ list_to_set ls)
          (_overview_scene self))
       (labelmgr self) (ready self) (_cmap self) (_mesh_thread self)
       (_dirty self) (_volume self)
       (calls self ++ ((fun label => add_object label None) <$> ls)).
Proof.
  induction ls as [|l ls IH]; intros [[vis geo b sh] lm rd cm mt d v cs]; simpl.
  - unfold Scene.set_visible_objects. simpl.
    rewrite app_nil_r, union_empty_r_L. reflexivity.
  - rewrite IH. unfold Scene.set_visible_objects, logged, with_scene. simpl.
    rewrite <- app_assoc. simpl. do 2 f_equal. set_solver.
Qed.

Lemma for_each_remove_object (X : gset Z) self :
  for_each X scene_remove_object self =
    (Ok tt,
     mk (Scene.set_visible_objects
           (Scene.visible_objects (_overview_scene self) ∖ X)
           (_overview_scene self))
        (labelmgr self) (ready self) (_cmap self) (_mesh_thread self)
        (_dirty self) (_volume self)
        (calls self ++ (remove_object <$> elements X))).
Proof.
  unfold scene_remove_object.
  rewrite (for_each_modify X (fun label s =>
             logged (remove_object label)
                    (with_scene (Scene.remove_object label) s))).
  rewrite foldl_remove_object, list_to_set_elements_L. reflexivity.
Qed.

Lemma for_each_add_object (X : gset Z) self :
  for_each X (fun label => scene_add_object label None) self =
    (Ok tt,
     mk (Scene.set_visible_objects
           (Scene.visible_objects (_overview_scene self) ∪ X)
           (_overview_scene self))
        (labelmgr self) (ready self) (_cmap self) (_mesh_thread self)
        (_dirty self) (_volume self)
        (calls self ++ ((fun label => add_object label None) <$> elements X))).
Proof.
  unfold scene_add_object.
  rewrite (for_each_modify X (fun label s =>
             logged (add_object label None)
                    (with_scene (Scene.add_object label None) s))).
  rewrite foldl_add_object, list_to_set_elements_L. reflexivity.
Qed.

Lemma pass_label_sets (vis new old' : gset Z) (has : Z -> bool) :
  (forall l, l ∈ new -> (l ∈ old' <-> l ∈ vis /\ l ≠ CURRENT_LABEL)) ->
  let known0 : gset Z := filter (fun l => Is_true (has l)) (new ∖ old') in
  (forall l, l ∈ known0 ∖ {[CURRENT_LABEL]} <->
             l ≠ CURRENT_LABEL /\ l ∈ new /\ (l ∉ vis) /\ has l = true) /\
  (forall l, l ∈ (if decide (CURRENT_LABEL ∈ known0)
                  then (new ∖ old') ∖ known0 ∪ {[CURRENT_LABEL]}
                  else (new ∖ old') ∖ known0) <->
             l ∈ new /\ (l = CURRENT_LABEL \/ ((l ∉ vis) /\ has l = false))).
Proof.
  intros Hold' known0.
  assert (Hknown0 : forall l, l ∈ known0 <->
            has l = true /\ l ∈ new /\ l ∉ old').
  { intros l. unfold known0.
    rewrite elem_of_filter, elem_of_difference, Is_true_true. tauto. }
  split.
  - intros l. rewrite elem_of_difference, elem_of_singleton, Hknown0.
    destruct (decide (l ∈ new)) as [Hn|Hn]; [| tauto].
    rewrite (Hold' l Hn). destruct (decide (l ∈ vis)); tauto.
  - intros l.
    assert (Hin : l ∈ new ∖ old' ∖ known0 <->
              l ∈ new /\ (l ∉ old') /\ has l = false).
    { rewrite !elem_of_difference, Hknown0.
      destruct (has l); intuition congruence. }
    destruct (decide (l ∈ new)) as [Hn|Hn].
    2:{ case_decide as Hc; rewrite ?elem_of_union, ?elem_of_singleton, Hin.
        - split; [| tauto]. intros [Hx|Hx]; [tauto |]. subst l.
          apply Hknown0 in Hc. tauto.
        - tauto. }
    pose proof (Hold' l Hn) as Hl.
    case_decide as H1.
    + rewrite elem_of_union, elem_of_singleton, Hin, Hl.
      destruct (decide (l = CURRENT_LABEL)) as [->|]; [tauto |].
      destruct (decide (l ∈ vis)); tauto.
    + rewrite Hin, Hl.
      destruct (decide (l = CURRENT_LABEL)) as [->|].
      * rewrite Hknown0, Hl in H1.
        destruct (has CURRENT_LABEL); intuition congruence.
      * destruct (decide (l ∈ vis)); tauto.
Qed.

Lemma update_pass self vol :
  _dirty self = true -> _volume self = Some vol ->
  exists removed known generate : gset Z,
    let old := Scene.visible_objects (_overview_scene self) in
    (forall l, l ∈ removed <-> l ∈ old /\ ~ (l ∈ unique vol /\ l ≠ BG_LABEL)) /\
    (forall l, l ∈ known <->
               l ≠ CURRENT_LABEL /\ (l ∈ unique vol /\ l ≠ BG_LABEL) /\ (l ∉ old) /\
               Scene.has_object (_overview_scene self) l = true) /\
    (forall l, l ∈ generate <->
               (l ∈ unique vol /\ l ≠ BG_LABEL) /\
               (l = CURRENT_LABEL \/
                ((l ∉ old) /\ Scene.has_object (_overview_scene self) l = false))) /\
    update "MainThread" self = (Ok tt, after_pass self removed known generate).
Proof.
  intros Hd Hv.
  destruct self as [[vis geo b sh shares] lm rd cm mt d v cs]. simpl in *. subst d v.
  unfold Scene.has_object. cbn [Scene.geometry].
  set (has := fun l : Z => bool_decide (is_Some (geo !! l))).
  set (new := try_remove BG_LABEL (unique vol)).
  set (old' := try_remove CURRENT_LABEL
                 (if shares then vis ∖ (vis ∖ new) else vis)).
  set (known0 := filter (fun l => Is_true (has l)) (new ∖ old') : gset Z).
  exists (vis ∖ new), (known0 ∖ {[CURRENT_LABEL]}),
    (if decide (CURRENT_LABEL ∈ known0)
     then (new ∖ old') ∖ known0 ∪ {[CURRENT_LABEL]} else (new ∖ old') ∖ known0).
  assert (Hnew : forall l, l ∈ new <-> l ∈ unique vol /\ l ≠ BG_LABEL).
  { intros l. unfold new. rewrite try_remove_difference. set_solver. }
  assert (Hold' : forall l, l ∈ new ->
            (l ∈ old' <-> l ∈ vis /\ l ≠ CURRENT_LABEL)).
  { intros l Hl. unfold old'. rewrite try_remove_difference.
    destruct shares; rewrite !elem_of_difference, elem_of_singleton; tauto. }
  destruct (pass_label_sets vis new old' has Hold') as [Hk Hg].
  fold known0 in Hk, Hg.
  split; [| split; [| split]].
  - intros l. rewrite elem_of_difference, Hnew. tauto.
  - intros l. rewrite Hk, <- Hnew. tauto.
  - intros l. rewrite Hg, <- Hnew. tauto.
  - unfold update, is_main_thread.
    change (String.eqb "MainThread" "MainThread") with true. cbn [negb].
    unfold mbind, M_bind, get, mret, M_ret, read_volume, read_visible_objects,
      contents, modify at 1 2.
    cbn [_dirty _volume with_dirty negb _overview_scene
         Scene.shares_visible_objects Scene.visible_objects].
    assert (Hobsolete :
              (if shares then vis
               else match (if shares then scene_visible_objects
                           else local_set vis) with
                    | scene_visible_objects => vis
                    | local_set X => X
                    end) = vis) by (now destruct shares).
    destruct shares;
      cbn [_overview_scene Scene.visible_objects];
      rewrite for_each_remove_object;
      unfold try_remove_in_place, mbind, M_bind, mret, M_ret, modify,
        with_dirty, with_scene, Scene.set_visible_objects, Scene.has_object;
      cbn [_overview_scene labelmgr ready _cmap _mesh_thread _dirty _volume calls
           Scene.visible_objects Scene.geometry Scene.busy Scene.dataShape
           Scene.shares_visible_objects];
      fold new; fold old';
      change (filter (fun l : Z => Is_true (bool_decide (is_Some (geo !! l))))
                     (new ∖ old')) with known0;
      unfold after_pass, set_remove;
      cbn [_overview_scene labelmgr ready _cmap _mesh_thread _dirty _volume calls
           Scene.visible_objects Scene.geometry Scene.busy Scene.dataShape
           Scene.shares_visible_objects];
      (destruct (decide (CURRENT_LABEL ∈ known0)) as [H1|H1];
       [| replace (known0 ∖ {[CURRENT_LABEL]}) with known0 by set_solver];
       cbv beta iota zeta;
       rewrite for_each_add_object;
       cbn [_overview_scene labelmgr ready _cmap _mesh_thread _dirty _volume calls
            Scene.visible_objects Scene.geometry Scene.busy Scene.dataShape
            Scene.shares_visible_objects Scene.set_visible_objects];
       case_decide;
       unfold scene_set_busy, mbind, M_bind, modify, logged, with_scene,
         with_mesh_thread, Scene.set_busy, Scene.set_visible_objects;
       cbn [_overview_scene labelmgr ready _cmap _mesh_thread _dirty _volume calls
            Scene.visible_objects Scene.geometry Scene.busy Scene.dataShape
            Scene.shares_visible_objects];
       rewrite <- ?app_assoc, ?app_nil_r;
       try (unfold old'; rewrite try_remove_difference);
       reflexivity).
Qed.

Lemma is_main_thread_true th : is_main_thread th = true <-> th = "MainThread"%string.
Proof. apply String.eqb_eq. Qed.

(** A pass touches the scene, the dirty flag, the worker handle and
    the log, and nothing else. *)
Lemma update_frame th self :
  labelmgr (snd (update th self)) = labelmgr self /\
  ready (snd (update th self)) = ready self /\
  _cmap (snd (update th self)) = _cmap self /\
  _volume (snd (update th self)) = _volume self.
Proof.
  destruct (is_main_thread th) eqn:Hth.
  - apply is_main_thread_true in Hth. subst th.
    destruct (_dirty self) eqn:Hd.
    + destruct (_volume self) as [vol|] eqn:Hv.
      * destruct (update_pass self vol Hd Hv) as (r & k & g & _ & _ & _ & ->).
        simpl. auto.
      * unfold update, is_main_thread.
        change (String.eqb "MainThread" "MainThread") with true. cbn [negb].
        unfold mbind, M_bind, get, read_volume, modify. rewrite Hd. cbn [negb].
        cbn [_volume with_dirty]. rewrite Hv. simpl. auto.
    + unfold update, is_main_thread.
      change (String.eqb "MainThread" "MainThread") with true. cbn [negb].
      unfold mbind, M_bind, get. rewrite Hd. simpl. auto.
  - unfold update. rewrite Hth. simpl. auto.
Qed.

Lemma update_clean th self :
  _dirty self = false -> is_main_thread th = true ->
  update th self = (Ok tt, self).
Proof.
  intros Hd Hth. unfold update. rewrite Hth. cbn [negb].
  unfold mbind, M_bind, get. rewrite Hd. reflexivity.
Qed.

Lemma update_off_main_thread th self :
  is_main_thread th = false -> update th self = (Raise AssertionError, self).
Proof. intros Hth. unfold update. rewrite Hth. reflexivity. Qed.

(** C1: in a reconciliation pass ([update()] with the dirty flag
    set), when [CURRENT_LABEL] is one of the labels of the volume, no
    [add_object] for it is among the commands of the pass, whatever
    [has_object(CURRENT_LABEL)] says and whether or not the scene
    shows it, and the pass starts a mesh worker whose label set
    contains it. *)
Theorem current_label_always_regenerated self vol :
  _dirty self = true ->
  _volume self = Some vol ->
  CURRENT_LABEL ∈ unique vol ->
  exists (issued : list (call Mesh)) (generate : gset Z) self',
    update "MainThread" self = (Ok tt, self') /\
    calls self' = calls self ++ issued /\
    (forall mesh, add_object CURRENT_LABEL mesh ∉ issued) /\
    MeshGenerator generate ∈ issued /\
    CURRENT_LABEL ∈ generate /\
    _mesh_thread self' = Some generate.
Proof.
  intros Hd Hv Hin.
  destruct (update_pass self vol Hd Hv) as (removed & known & generate & _ & Hk & Hg & Hup).
  assert (Hcur : CURRENT_LABEL ∈ generate).
  { apply Hg. split; [split; [exact Hin | discriminate] | now left]. }
  assert (Hne : generate ≠ ∅) by set_solver.
  eexists _, generate, _. split; [exact Hup |].
  unfold after_pass. cbn [calls _mesh_thread].
  destruct (decide (generate ≠ ∅)) as [_|]; [| contradiction].
  split; [reflexivity |]. split; [| split; [| split; [exact Hcur | reflexivity]]].
  - intros mesh Hm. rewrite !elem_of_app in Hm.
    destruct Hm as [Hm|[Hm|Hm]].
    + apply list_elem_of_fmap in Hm as (l & Hl & _). discriminate.
    + apply list_elem_of_fmap in Hm as (l & Hl & Hl').
      injection Hl as <- _. apply elem_of_elements, Hk in Hl'. tauto.
    + apply elem_of_cons in Hm as [Hm|Hm]; [discriminate |].
      apply list_elem_of_singleton in Hm. discriminate.
  - rewrite !elem_of_app. right. right. right. left.
Qed.

(** C3, as the code has it: with the labels 0, 2 and 3 in the volume,
    2 and 4 shown and no geometry cached for 3, a pass issues
    [remove_object(4)], marks the scene busy and starts one worker
    for exactly the label 3.  It issues no [add_object]: label 2 is
    shown already and stays as it is. *)
Theorem scenario2_pass self vol :
  _dirty self = true ->
  _volume self = Some vol ->
  unique vol = {[0; 2; 3]} ->
  Scene.visible_objects (_overview_scene self) = {[2; 4]} ->
  Scene.has_object (_overview_scene self) 3 = false ->
  exists self',
    update "MainThread" self = (Ok tt, self') /\
    calls self' =
      calls self ++ [remove_object 4; set_busy true; MeshGenerator {[3]}] /\
    _mesh_thread self' = Some {[3]} /\
    Scene.visible_objects (_overview_scene self') = {[2]}.
Proof.
  intros Hd Hv Hu Hvis Hno3.
  destruct (update_pass self vol Hd Hv) as (removed & known & generate & Hr & Hk & Hg & Hup).
  cbv zeta in Hr, Hk, Hg. rewrite Hvis, Hu in *.
  unfold BG_LABEL, CURRENT_LABEL in *.
  assert (removed = {[4]}) as ->.
  { apply set_eq. intros l. rewrite Hr. set_unfold. lia. }
  assert (known = ∅) as ->.
  { apply set_eq. intros l. rewrite Hk. split; [| set_solver].
    intros (H1 & H2 & H3 & H4).
    assert (l = 3) as -> by (set_unfold; lia). congruence. }
  assert (generate = {[3]}) as ->.
  { apply set_eq. intros l. rewrite Hg. split.
    - intros [H1 [H2|[H2 _]]]; set_unfold; lia.
    - intros H. apply elem_of_singleton in H as ->.
      split; [set_unfold; lia |]. right. split; [set_unfold; lia | exact Hno3]. }
  eexists. split; [exact Hup |].
  unfold after_pass. cbn [calls _mesh_thread _overview_scene Scene.visible_objects].
  rewrite Hvis, elements_singleton, elements_empty.
  destruct (decide (({[3]} : gset Z) ≠ ∅)) as [_|Hn]; [| exfalso; apply Hn; set_solver].
  split; [reflexivity |]. split; [reflexivity |].
  destruct (Scene.shares_visible_objects (_overview_scene self));
    apply set_eq; intros l; unfold CURRENT_LABEL; set_unfold; lia.
Qed.

(** The scene's visible objects after a pass, for both kinds of scene.
    The pass issues [remove_object] for exactly the shown labels that
    are no longer in the volume and [add_object] (without a mesh) for
    exactly the labels other than [CURRENT_LABEL] that are in the
    volume, not shown and cached; a label other than [CURRENT_LABEL]
    is shown afterwards just when it is a nonzero label of the volume
    that was shown or is cached.  [CURRENT_LABEL] itself is gone from a
    set the scene shares, and stays in the set of a scene that hands
    out copies when it was shown and is still in the volume. *)
Lemma visible_objects_after_pass self vol :
  _dirty self = true ->
  _volume self = Some vol ->
  exists (issued : list (call Mesh)) self',
    update "MainThread" self = (Ok tt, self') /\
    calls self' = calls self ++ issued /\
    let old := Scene.visible_objects (_overview_scene self) in
    let cached l := Scene.has_object (_overview_scene self) l = true in
    let new l := l ∈ unique vol /\ l ≠ BG_LABEL in
    (forall l, remove_object l ∈ issued <-> l ∈ old /\ ~ new l) /\
    (forall l mesh, add_object l mesh ∈ issued <->
       mesh = None /\ l ≠ CURRENT_LABEL /\ new l /\ (l ∉ old) /\ cached l) /\
    (CURRENT_LABEL ∈ Scene.visible_objects (_overview_scene self') <->
       Scene.shares_visible_objects (_overview_scene self) = false /\
       CURRENT_LABEL ∈ old /\ CURRENT_LABEL ∈ unique vol) /\
    (forall l, l ≠ CURRENT_LABEL ->
       l ∈ Scene.visible_objects (_overview_scene self') <->
       new l /\ (l ∈ old \/ cached l)).
Proof.
  intros Hd Hv.
  destruct (update_pass self vol Hd Hv) as (removed & known & generate & Hr & Hk & Hg & Hup).
  cbv zeta in Hr, Hk, Hg.
  eexists _, _. split; [exact Hup |].
  unfold after_pass. cbn [calls _overview_scene Scene.visible_objects].
  split; [reflexivity |]. cbv zeta. split; [| split; [| split]].
  - intros l. rewrite <- Hr, !elem_of_app. split.
    + intros [H|[H|H]].
      * apply list_elem_of_fmap in H as (l' & Hl & Hl').
        injection Hl as ->. now apply elem_of_elements.
      * apply list_elem_of_fmap in H as (l' & Hl & _). discriminate.
      * case_decide; [| now apply elem_of_nil in H].
        apply elem_of_cons in H as [H|H]; [discriminate |].
        apply list_elem_of_singleton in H. discriminate.
    + intros H. left. apply list_elem_of_fmap. exists l.
      split; [reflexivity | now apply elem_of_elements].
  - intros l mesh. rewrite !elem_of_app. split.
    + intros [H|[H|H]].
      * apply list_elem_of_fmap in H as (l' & Hl & _). discriminate.
      * apply list_elem_of_fmap in H as (l' & Hl & Hl').
        injection Hl as -> ->. apply elem_of_elements, Hk in Hl'.
        split; [reflexivity | tauto].
      * case_decide; [| now apply elem_of_nil in H].
        apply elem_of_cons in H as [H|H]; [discriminate |].
        apply list_elem_of_singleton in H. discriminate.
    + intros (-> & H). right. left. apply list_elem_of_fmap. exists l.
      split; [reflexivity |]. apply elem_of_elements, Hk. tauto.
  - destruct (Scene.shares_visible_objects (_overview_scene self));
      rewrite elem_of_union, ?elem_of_difference, ?elem_of_singleton, Hk, Hr;
      unfold BG_LABEL, CURRENT_LABEL;
      destruct (decide (1 ∈ unique vol)); intuition (congruence || lia).
  - intros l Hl.
    destruct (Scene.shares_visible_objects (_overview_scene self));
      rewrite elem_of_union, !elem_of_difference, ?elem_of_singleton, Hk, Hr;
      destruct (decide (l ∈ Scene.visible_objects (_overview_scene self)));
      destruct (decide (l ∈ unique vol)); destruct (decide (l = BG_LABEL)); tauto.
Qed.

(** *** The volume property *)

Lemma volume_Some self vol :
  _volume self = Some vol -> volume self = (Ok (transpose vol), self).
Proof.
  intros Hv. unfold volume, mbind, M_bind, read_volume. now rewrite Hv.
Qed.

Lemma volume_inv self cur :
  volume self = (Ok cur, self) ->
  exists vol, _volume self = Some vol /\ cur = transpose vol.
Proof.
  unfold volume, mbind, M_bind, read_volume.
  destruct (_volume self) as [vol|]; [| discriminate].
  intros H. injection H as <-. now exists vol.
Qed.

(** What the setter does for a value of the buffer's shape: nothing
    when no element differs; otherwise the copy, the flag, and a pass
    that is entered with the flag set. *)
Lemma volume_setter_unfold th value self vol :
  _volume self = Some vol ->
  shape value = rev (shape vol) ->
  volume_setter th value self =
    if any_ne (transpose value) vol
    then update th (with_dirty true
                      (with_volume (assign vol (transpose value)) self))
    else (Ok tt, self).
Proof.
  intros Hv Hs. unfold volume_setter, mbind, M_bind, read_volume.
  rewrite Hv. cbn [shape transpose]. rewrite Hs, rev_involutive.
  rewrite bool_decide_eq_true_2 by reflexivity. cbn [negb].
  destruct (any_ne _ vol); reflexivity.
Qed.

Lemma volume_setter_volume th value self vol :
  _volume self = Some vol ->
  shape value = rev (shape vol) ->
  _volume (snd (volume_setter th value self)) =
    Some (if any_ne (transpose value) vol
          then assign vol (transpose value) else vol).
Proof.
  intros Hv Hs. rewrite (volume_setter_unfold th value self vol Hv Hs).
  destruct (any_ne _ vol); [| exact Hv].
  destruct (update_frame th (with_dirty true
              (with_volume (assign vol (transpose value)) self)))
    as (_ & _ & _ & ->).
  reflexivity.
Qed.

(** C7: writing a value that is element-wise equal to the volume as
    read is no operation at all.  The call returns normally on any
    thread, so [update()], which raises off the main thread, has not
    been entered, and the manager it leaves is the one it found:
    buffer, dirty flag, scene, allocator, colours and log. *)
Theorem volume_setter_same_value th self cur value :
  volume self = (Ok cur, self) ->
  array_equal value cur ->
  volume_setter th value self = (Ok tt, self).
Proof.
  intros Hcur [Hs Heq].
  apply volume_inv in Hcur as (vol & Hv & ->). cbn [shape transpose item] in *.
  rewrite (volume_setter_unfold th value self vol Hv Hs).
  replace (any_ne (transpose value) vol) with false; [reflexivity |].
  symmetry. apply any_ne_false. intros idx Hidx. cbn [item transpose].
  rewrite Heq by (rewrite Hs; now apply in_bounds_rev).
  now rewrite rev_involutive.
Qed.

(** C9: [removeObject(label)] for an allocated label moves the label
    from [_used] back to [_available] and does nothing else: the
    colour map (and so the colour of [label]), the buffer, the dirty
    flag, the scene and the log of commands are as before. *)
Theorem removeObject_only_frees self label :
  label ∈ LabelManager._used (labelmgr self) ->
  exists self',
    removeObject (Some label) self = (Ok tt, self') /\
    labelmgr self' =
      {| LabelManager._available :=
           LabelManager._available (labelmgr self) ∪ {[label]};
         LabelManager._used := LabelManager._used (labelmgr self) ∖ {[label]};
         LabelManager._n := LabelManager._n (labelmgr self) |} /\
    _cmap self' = _cmap self /\
    _cmap self' !! label = _cmap self !! label /\
    _volume self' = _volume self /\
    _dirty self' = _dirty self /\
    _overview_scene self' = _overview_scene self /\
    calls self' = calls self /\
    ready self' = ready self /\
    _mesh_thread self' = _mesh_thread self.
Proof.
  intros Hin. eexists. split.
  - unfold removeObject, on_labelmgr, LabelManager.free.
    rewrite decide_True by exact Hin. reflexivity.
  - cbn. repeat split; reflexivity.
Qed.

(** Every way the setter can go: it leaves the manager as it found it
    (returning or raising), or it overwrites the buffer with converted
    elements, raises the flag and runs [update]. *)
Lemma volume_setter_cases th value self :
  (exists r, volume_setter th value self = (r, self)) \/
  (exists vol w,
     _volume self = Some vol /\
     dtype_of w = dtype_of vol /\ shape w = shape vol /\ well_typed w /\
     volume_setter th value self =
       update th (with_dirty true (with_volume w self))).
Proof.
  unfold volume_setter, mbind, M_bind, mret, M_ret, raise, read_volume.
  destruct (_volume self) as [vol|] eqn:Hv; [| eauto].
  case_bool_decide.
  - destruct (any_ne _ vol); [| eauto].
    right. exists vol, (assign vol (transpose value)).
    split; [reflexivity |]. split; [reflexivity |]. split; [reflexivity |].
    split; [apply assign_well_typed | reflexivity].
  - destruct (any_ne_broadcast _ vol) as [[|]|]; [| eauto | eauto].
    destruct (assign_broadcast vol _) as [w|] eqn:Hw; [| eauto].
    apply assign_broadcast_Some in Hw as (Hdt & Hsh & Hwt).
    right. exists vol, w. auto.
Qed.

(** *** The element type of the buffer *)

Lemma init_volume_is_uint8 (sc : Scene.t Mesh) :
  volume_is_uint8 (__init__ (Color := Color) sc).
Proof. intros vol H. discriminate. Qed.

Lemma setup_volume_is_uint8 shape self :
  volume_is_uint8 (snd (setup shape self)).
Proof.
  intros vol H. cbn in H. injection H as <-.
  split; [reflexivity | apply zeros_well_typed].
Qed.

Lemma update_volume_is_uint8 th self :
  volume_is_uint8 self -> volume_is_uint8 (snd (update th self)).
Proof.
  intros H vol. destruct (update_frame th self) as (_ & _ & _ & ->). apply H.
Qed.

Lemma step_volume_is_uint8 self (o : op Color Mesh) :
  volume_is_uint8 self -> volume_is_uint8 (step self o).
Proof.
  intros H. destruct o; cbn [step].
  - apply setup_volume_is_uint8.
  - now apply update_volume_is_uint8.
  - unfold _on_mesh_generated.
    destruct (is_main_thread thread_name); cbn [negb]; [| exact H].
    destruct mesh; [exact H |]. case_decide; exact H.
  - exact H.
  - unfold volume, mbind, M_bind, read_volume.
    destruct (_volume self); exact H.
  - destruct (volume_setter_cases thread_name value self)
      as [[r ->]|(vol & w & Hv & Hdt & _ & Hwt & ->)]; [exact H |].
    apply update_volume_is_uint8. intros vol' Hv'. cbn in Hv'.
    injection Hv' as <-. destruct (H vol Hv) as [Hdt' _].
    split; [congruence | exact Hwt].
  - unfold addObject, mbind, M_bind, on_labelmgr.
    destruct (LabelManager.request (labelmgr self)) as [[l|e] lm]; exact H.
  - unfold removeObject, on_labelmgr.
    destruct (LabelManager.free label (labelmgr self)) as [[[]|e] lm]; exact H.
  - unfold clear, mbind, M_bind, read_volume.
    destruct (_volume self) as [vol|] eqn:Hv; [| exact H].
    intros vol' Hv'. cbn in Hv'. injection Hv' as <-.
    destruct (H vol Hv) as [Hdt _].
    split; [exact Hdt | apply fill_well_typed].
  - unfold _handle_scene_init, mbind, M_bind, get. cbn [fst snd].
    apply update_volume_is_uint8.
    apply (setup_volume_is_uint8 (Scene.dataShape (_overview_scene self)) self).
  - exact H.
Qed.

Lemma run_volume_is_uint8 (ops : list (op Color Mesh)) : forall self,
  volume_is_uint8 self -> volume_is_uint8 (run ops self).
Proof.
  induction ops as [|o ops IH]; intros self H; [exact H |].
  apply IH, step_volume_is_uint8, H.
Qed.

(** The elements a write leaves in the buffer, and what the property
    then reads, for a buffer of [uint8] elements. *)
Lemma volume_setter_elements th self vol value :
  volume_is_uint8 self ->
  _volume self = Some vol ->
  shape value = rev (shape vol) ->
  dtype_of vol = uint8 /\
  exists vol',
    let self' := snd (volume_setter th value self) in
    _volume self' = Some vol' /\
    dtype_of vol' = uint8 /\
    shape vol' = shape vol /\
    (forall idx, in_bounds idx (shape value) ->
                 item vol' (rev idx) = item value idx mod 256) /\
    exists cur,
      volume self' = (Ok cur, self') /\
      shape cur = shape value /\
      forall idx, in_bounds idx (shape value) ->
                  item cur idx = item value idx mod 256.
Proof.
  intros Hinv Hv Hs.
  destruct (Hinv vol Hv) as [Hdt Hwt].
  split; [exact Hdt |].
  pose proof (volume_setter_volume th value self vol Hv Hs) as Hv'.
  eexists. cbv zeta. split; [exact Hv' |].
  assert (Helt : forall idx, in_bounds idx (shape value) ->
            item (if any_ne (transpose value) vol
                  then assign vol (transpose value) else vol) (rev idx) =
            item value idx mod 256).
  { intros idx Hidx.
    destruct (any_ne (transpose value) vol) eqn:Hne.
    - cbn [item assign transpose]. rewrite Hdt, rev_involutive. reflexivity.
    - assert (Hb : in_bounds (rev idx) (shape vol)).
      { apply in_bounds_rev_l. now rewrite <- Hs. }
      pose proof (proj1 (any_ne_false _ _) Hne (rev idx) Hb) as He.
      cbn [item transpose] in He. rewrite rev_involutive in He.
      pose proof (Hwt (rev idx) Hb) as Hw. rewrite Hdt in Hw.
      rewrite He. symmetry. exact Hw. }
  split; [destruct (any_ne _ vol); exact Hdt |].
  split; [destruct (any_ne _ vol); reflexivity |].
  split; [exact Helt |].
  eexists. split; [apply volume_Some, Hv' |].
  cbn [shape transpose item].
  split.
  - rewrite Hs. destruct (any_ne _ vol); reflexivity.
  - exact Helt.
Qed.


(** C6, as the code has it: for an array of the configured shape
    whose elements all lie in [[0, 255]], reading [volume] after
    setting it returns an array equal to the one written. *)
Theorem volume_roundtrip_uint8
    (overview_scene : Scene.t Mesh) (ops : list (op Color Mesh)) th vol value :
  let self := run ops (__init__ overview_scene) in
  _volume self = Some vol ->
  shape value = rev (shape vol) ->
  (forall idx, in_bounds idx (shape value) -> 0 <= item value idx < 256) ->
  exists cur,
    let self' := snd (volume_setter th value self) in
    volume self' = (Ok cur, self') /\ array_equal cur value.
Proof.
  intros self Hv Hs Hrange.
  assert (Hinv : volume_is_uint8 self)
    by apply run_volume_is_uint8, init_volume_is_uint8.
  destruct (volume_setter_elements th self vol value Hinv Hv Hs)
    as (_ & vol' & _ & _ & _ & _ & cur & Hcur & Hshape & Helt).
  exists cur. split; [exact Hcur |]. split; [exact Hshape |].
  intros idx Hidx. rewrite Hshape in Hidx.
  rewrite (Helt idx Hidx). apply Z.mod_small, Hrange, Hidx.
Qed.

(** *** The dirty flag *)

(** The setter raises the flag right after the copy: the pass it
    triggers is entered with the flag set. *)
Lemma volume_setter_marks_dirty th value self vol :
  _volume self = Some vol ->
  shape value = rev (shape vol) ->
  any_ne (transpose value) vol = true ->
  exists marked,
    volume_setter th value self = update th marked /\
    _dirty marked = true /\
    _volume marked = Some (assign vol (transpose value)).
Proof.
  intros Hv Hs Hne. eexists. split.
  - rewrite (volume_setter_unfold th value self vol Hv Hs), Hne. reflexivity.
  - split; reflexivity.
Qed.

(** A pass lowers the flag, whatever it then finds to do. *)
Lemma update_clears_dirty self :
  _dirty (snd (update "MainThread" self)) = false.
Proof.
  destruct (_dirty self) eqn:Hd.
  - destruct (_volume self) as [vol|] eqn:Hv.
    + destruct (update_pass self vol Hd Hv) as (r & k & g & _ & _ & _ & ->).
      reflexivity.
    + unfold update, is_main_thread.
      change (String.eqb "MainThread" "MainThread") with true. cbn [negb].
      unfold mbind, M_bind, get, read_volume, modify. rewrite Hd. cbn [negb].
      cbn [_volume with_dirty]. rewrite Hv. reflexivity.
  - rewrite update_clean by (exact Hd || reflexivity). exact Hd.
Qed.

(** [clear()] writes the buffer and never touches the flag. *)
Lemma clear_keeps_dirty self : _dirty (snd (clear self)) = _dirty self.
Proof.
  unfold clear, mbind, M_bind, read_volume, modify, on_labelmgr.
  destruct (_volume self); reflexivity.
Qed.

End Facts.

(** *** The claims on concrete managers *)

Import Examples.

Lemma current_label_always_regenerated_witness :
  _dirty current_shown = true /\
  CURRENT_LABEL ∈ Scene.visible_objects (_overview_scene current_shown) /\
  Scene.has_object (_overview_scene current_shown) CURRENT_LABEL = true /\
  exists (issued : list (call unit)) (generate : gset Z) self',
    update "MainThread" current_shown = (Ok tt, self') /\
    calls self' = calls current_shown ++ issued /\
    (forall mesh, add_object CURRENT_LABEL mesh ∉ issued) /\
    MeshGenerator generate ∈ issued /\
    CURRENT_LABEL ∈ generate /\
    _mesh_thread self' = Some generate.
Proof.
  split; [reflexivity |]. split; [apply elem_of_singleton; reflexivity |].
  split; [reflexivity |].
  apply (current_label_always_regenerated current_shown (array3 uint8 [[[1]]])).
  - reflexivity.
  - reflexivity.
  - apply elem_of_unique. exists [0; 0; 0]%nat.
    split; [repeat constructor | reflexivity].
Defined.

(** C3, as the claim has it: in [scenario2] the volume holds 0, 2 and
    3, the scene shows 2 and 4 and has nothing cached for 3, and yet
    the pass issues no [add_object(2)]. *)
Lemma scenario2_add_object_not_issued :
  _dirty scenario2 = true /\
  option_map unique (_volume scenario2) = Some {[0; 2; 3]} /\
  Scene.visible_objects (_overview_scene scenario2) = {[2; 4]} /\
  Scene.has_object (_overview_scene scenario2) 3 = false /\
  Scene.has_object (_overview_scene scenario2) 2 = true /\
  fst (update "MainThread" scenario2) = Ok tt /\
  forall mesh,
    add_object 2 mesh ∉ calls (snd (update "MainThread" scenario2)).
Proof.
  split; [reflexivity |]. split; [vm_compute; reflexivity |].
  split; [reflexivity |]. split; [reflexivity |]. split; [reflexivity |].
  split; [vm_compute; reflexivity |].
  intros mesh.
  assert (Hcalls : calls (snd (update "MainThread" scenario2)) =
            [remove_object 4; set_busy true; MeshGenerator {[3]}])
    by (vm_compute; reflexivity).
  rewrite Hcalls. intros H.
  repeat (apply elem_of_cons in H as [H|H]; [discriminate |]).
  now apply elem_of_nil in H.
Qed.

Lemma scenario2_pass_witness :
  _dirty scenario2 = true /\
  exists self',
    update "MainThread" scenario2 = (Ok tt, self') /\
    calls self' =
      calls scenario2 ++ [remove_object 4; set_busy true; MeshGenerator {[3]}] /\
    _mesh_thread self' = Some {[3]} /\
    Scene.visible_objects (_overview_scene self') = {[2]}.
Proof.
  split; [reflexivity |].
  apply (scenario2_pass scenario2 (array3 uint8 [[[0]]; [[2]]; [[3]]])).
  - reflexivity.
  - reflexivity.
  - vm_compute. reflexivity.
  - reflexivity.
  - reflexivity.
Defined.

(** C4 at a failing input: the scene of [current_shown] hands out its
    own set of visible objects (the kind of scene the spec describes),
    shows [CURRENT_LABEL], and the volume still holds that label.  The
    pass issues no [remove_object], yet [old_labels.remove(CURRENT_LABEL)]
    has taken [CURRENT_LABEL] out of the scene's [visible_objects]:
    the exclusion meant for the comparison has changed the scene. *)
Theorem current_label_dropped_from_visible_objects :
  Scene.shares_visible_objects (_overview_scene current_shown) = true /\
  CURRENT_LABEL ∈ Scene.visible_objects (_overview_scene current_shown) /\
  option_map unique (_volume current_shown) = Some {[CURRENT_LABEL]} /\
  fst (update "MainThread" current_shown) = Ok tt /\
  (forall l, remove_object l ∉ calls (snd (update "MainThread" current_shown))) /\
  CURRENT_LABEL ∉
    Scene.visible_objects (_overview_scene (snd (update "MainThread" current_shown))).
Proof.
  split; [reflexivity |].
  split; [apply elem_of_singleton; reflexivity |].
  split; [vm_compute; reflexivity |].
  split; [vm_compute; reflexivity |].
  split.
  - intros l.
    assert (Hcalls : calls (snd (update "MainThread" current_shown)) =
              [set_busy true; MeshGenerator {[CURRENT_LABEL]}])
      by (vm_compute; reflexivity).
    rewrite Hcalls. intros H.
    repeat (apply elem_of_cons in H as [H|H]; [discriminate |]).
    now apply elem_of_nil in H.
  - assert (Hvis : Scene.visible_objects
                     (_overview_scene (snd (update "MainThread" current_shown))) = ∅)
      by (vm_compute; reflexivity).
    rewrite Hvis. apply not_elem_of_empty.
Qed.

(** The same pass on a scene that hands out copies: the commands are
    the same and [CURRENT_LABEL] stays in the scene's set. *)
Lemma current_label_kept_by_copying_scene :
  Scene.shares_visible_objects (_overview_scene MoreExamples.current_shown_copying) = false /\
  calls (snd (update "MainThread" MoreExamples.current_shown_copying)) =
    calls (snd (update "MainThread" current_shown)) /\
  Scene.visible_objects
    (_overview_scene (snd (update "MainThread" MoreExamples.current_shown_copying))) =
    {[CURRENT_LABEL]}.
Proof.
  split; [reflexivity |]. split; vm_compute; reflexivity.
Qed.

(** C5 at a failing input: [labelled] shows the object 2 and its flag
    is down.  [clear()] zeroes the buffer and leaves the flag down, so
    the [update()] that follows returns at its guard: it issues no
    command and the scene goes on showing the object 2. *)
Theorem clear_leaves_dirty_flag_down :
  option_map unique (_volume labelled) = Some {[2]} /\
  _dirty labelled = false /\
  Scene.visible_objects (_overview_scene labelled) = {[2]} /\
  fst (clear labelled) = Ok tt /\
  option_map unique (_volume (snd (clear labelled))) = Some {[0]} /\
  _dirty (snd (clear labelled)) = false /\
  update "MainThread" (snd (clear labelled)) = (Ok tt, snd (clear labelled)) /\
  Scene.visible_objects
    (_overview_scene (snd (update "MainThread" (snd (clear labelled))))) = {[2]}.
Proof.
  split; [vm_compute; reflexivity |]. split; [vm_compute; reflexivity |].
  split; [vm_compute; reflexivity |]. split; [vm_compute; reflexivity |].
  split; [vm_compute; reflexivity |]. split; [vm_compute; reflexivity |].
  assert (Hup : update "MainThread" (snd (clear labelled)) =
                  (Ok tt, snd (clear labelled))).
  { apply update_clean; [| reflexivity]. vm_compute. reflexivity. }
  split; [exact Hup |]. rewrite Hup. vm_compute. reflexivity.
Qed.

(** C6, as the claim has it: [[[256]]] has the configured shape
    (1, 1, 1), and after it is written the property reads an array
    that is not equal to it. *)
Lemma volume_roundtrip_fails_at_256 :
  let value := array3 int32 [[[256]]] in
  let self' := snd (volume_setter "MainThread" value fresh) in
  option_map (fun v => rev (shape v)) (_volume fresh) = Some (shape value) /\
  exists cur,
    volume self' = (Ok cur, self') /\
    item cur [0; 0; 0]%nat = 0 /\
    ~ array_equal cur value.
Proof.
  cbv zeta. split; [reflexivity |].
  eexists. split; [apply volume_Some; vm_compute; reflexivity |].
  split; [reflexivity |].
  intros [_ H]. specialize (H [0; 0; 0]%nat).
  cbn in H. discriminate H. repeat constructor.
Qed.

Lemma volume_roundtrip_uint8_witness :
  let value := array3 int32 [[[255]]] in
  let self := run [Setup [1; 1; 1]%nat]
                  (__init__ (Color := unit) (Scene.mk (Mesh := unit) ∅ ∅ false [1; 1; 1]%nat true)) in
  (forall idx, in_bounds idx (shape value) -> 0 <= item value idx < 256) /\
  exists cur,
    let self' := snd (volume_setter "MainThread" value self) in
    volume self' = (Ok cur, self') /\ array_equal cur value.
Proof.
  cbv zeta.
  assert (Hrange : forall idx, in_bounds idx [1; 1; 1]%nat ->
            0 <= item (array3 int32 [[[255]]]) idx < 256).
  { intros idx H. apply elem_of_indices in H. cbn in H.
    apply list_elem_of_singleton in H. subst idx. cbn. lia. }
  split; [exact Hrange |].
  apply (volume_roundtrip_uint8 (Scene.mk ∅ ∅ false [1; 1; 1]%nat true)
           [Setup [1; 1; 1]%nat] "MainThread" (zeros [1; 1; 1]%nat uint8)
           (array3 int32 [[[255]]])).
  - reflexivity.
  - reflexivity.
  - exact Hrange.
Defined.

(** Values of another shape than the buffer's.  The buffer of
    [fresh_pair] has the shape (2, 1, 1), the volume reads as (1, 1, 2).
    A value of shape (1, 1, 1) is broadcast: [[[5]]] fills the buffer
    with 5.  A value of shape (1, 1, 3) does not broadcast against
    that buffer: ValueError, nothing changed.  The zeros of shape
    (1, 1, 3) broadcast against the buffer of [fresh] and are equal to
    it: no write, no error. *)
Lemma volume_setter_broadcasts :
  let self' := snd (volume_setter "MainThread" (array3 int32 [[[5]]])
                      MoreExamples.fresh_pair) in
  fst (volume_setter "MainThread" (array3 int32 [[[5]]]) MoreExamples.fresh_pair)
    = Ok tt /\
  option_map (fun v => (shape v, item v [0; 0; 0]%nat, item v [1; 0; 0]%nat))
             (_volume self') = Some ([2; 1; 1]%nat, 5, 5) /\
  _mesh_thread self' = Some {[5]}.
Proof. cbv zeta. repeat split; vm_compute; reflexivity. Qed.

Lemma volume_setter_shape_mismatch :
  volume_setter "MainThread" (array3 int32 [[[1; 2; 3]]]) MoreExamples.fresh_pair =
    (Raise ValueError, MoreExamples.fresh_pair) /\
  volume_setter "MainThread" (array3 int32 [[[0; 0; 0]]]) fresh = (Ok tt, fresh).
Proof. split; reflexivity. Qed.

Lemma volume_setter_same_value_witness :
  let value := array3 int32 [[[0]]] in
  array_equal value (transpose (zeros [1; 1; 1]%nat uint8)) /\
  volume_setter "OtherThread" value fresh = (Ok tt, fresh).
Proof.
  cbv zeta.
  assert (Heq : array_equal (array3 int32 [[[0]]])
                  (transpose (zeros [1; 1; 1]%nat uint8))).
  { apply array_equalb_spec. vm_compute. reflexivity. }
  split; [exact Heq |].
  apply (volume_setter_same_value "OtherThread" fresh
           (transpose (zeros [1; 1; 1]%nat uint8)) (array3 int32 [[[0]]])).
  - reflexivity.
  - exact Heq.
Defined.

Lemma removeObject_only_frees_witness :
  1 ∈ LabelManager._used (labelmgr one_object) /\
  _cmap one_object !! 1 = Some tt /\
  exists self',
    removeObject (Some 1) one_object = (Ok tt, self') /\
    labelmgr self' =
      {| LabelManager._available :=
           LabelManager._available (labelmgr one_object) ∪ {[1]};
         LabelManager._used := LabelManager._used (labelmgr one_object) ∖ {[1]};
         LabelManager._n := LabelManager._n (labelmgr one_object) |} /\
    _cmap self' = _cmap one_object /\
    _cmap self' !! 1 = _cmap one_object !! 1 /\
    _volume self' = _volume one_object /\
    _dirty self' = _dirty one_object /\
    _overview_scene self' = _overview_scene one_object /\
    calls self' = calls one_object /\
    ready self' = ready one_object /\
    _mesh_thread self' = _mesh_thread one_object.
Proof.
  assert (Hused : 1 ∈ LabelManager._used (labelmgr one_object)).
  { apply (bool_decide_unpack _). vm_compute. exact I. }
  split; [exact Hused |]. split; [vm_compute; reflexivity |].
  apply (removeObject_only_frees one_object 1). exact Hused.
Defined.


End RenderingManagerFacts.

(** ** LabelManager: further properties *)

Module LabelManagerMore.
Import LabelManager LabelManagerFacts.

(** X1: [free()] without a label brings the allocator back to the state
    [__init__] made, whatever calls it has served. *)
Theorem free_all_resets (n : Z) (calls : list call) :
  free None (run calls (__init__ n)) = (Ok tt, __init__ n).
Proof.
  destruct (run_partitioned calls _ (init_partitioned n)) as [_ Hn].
  unfold free. rewrite Hn. reflexivity.
Qed.

Lemma request_free_inverse (self : t) label self' :
  partitioned self ->
  request self = (Ok label, self') ->
  free (Some label) self' = (Ok tt, self).
Proof.
  intros [Hd _]. destruct self as [A U m]. cbn [_available _used] in Hd.
  intros Hreq.
  destruct (decide (A = ∅)) as [He|Hne].
  { rewrite request_empty in Hreq by exact He. discriminate. }
  destruct (request_nonempty (mk A U m) Hne) as (l & Hl & Hin & _).
  rewrite Hl in Hreq. injection Hreq as -> <-. cbn [_available _used _n] in *.
  unfold free. cbn [_available _used _n].
  rewrite decide_True by set_solver. do 2 f_equal.
  f_equal.
  - apply set_eq. intros x.
    rewrite elem_of_union, elem_of_difference, elem_of_singleton.
    destruct (decide (x = label)) as [->|]; tauto.
  - apply set_eq. intros x.
    rewrite elem_of_difference, elem_of_union, elem_of_singleton.
    split; [tauto |]. intros Hx. split; [tauto |]. intros ->. set_solver.
Qed.

(** X2: on an allocator reached from [__init__], freeing the label that
    [request()] has just returned restores the state before the
    request. *)
Theorem request_then_free_restores (n : Z) (calls : list call) label self' :
  request (run calls (__init__ n)) = (Ok label, self') ->
  free (Some label) self' = (Ok tt, run calls (__init__ n)).
Proof.
  apply request_free_inverse.
  apply (run_partitioned calls _ (init_partitioned n)).
Qed.

Lemma request_then_free_restores_witness :
  request (run [Request] (__init__ 4)) =
    (Ok 2, snd (request (run [Request] (__init__ 4)))) /\
  free (Some 2) (snd (request (run [Request] (__init__ 4)))) =
    (Ok tt, run [Request] (__init__ 4)).
Proof.
  assert (H : request (run [Request] (__init__ 4)) =
                (Ok 2, snd (request (run [Request] (__init__ 4)))))
    by (vm_compute; reflexivity).
  split; [exact H |].
  apply (request_then_free_restores 4 [Request] 2 _ H).
Defined.

(** X3: freeing a label that is not in use (never handed out, out of
    range, or freed before) raises nothing and changes nothing; so a
    second [free(label)] after a first one has no effect. *)
Theorem free_unused_is_noop :
  (forall (self : t) label,
     label ∉ _used self -> free (Some label) self = (Ok tt, self)) /\
  (forall (self : t) label,
     free (Some label) (snd (free (Some label) self)) =
       (Ok tt, snd (free (Some label) self))).
Proof.
  assert (H : forall (self : t) label,
            label ∉ _used self -> free (Some label) self = (Ok tt, self)).
  { intros self label Hn. unfold free. now rewrite decide_False. }
  split; [exact H |].
  intros self label. apply H. unfold free.
  case_decide; cbn [snd _used]; set_solver.
Qed.

Lemma free_unused_is_noop_witness :
  (7 ∉ _used (__init__ 4)) /\
  free (Some 7) (__init__ 4) = (Ok tt, __init__ 4).
Proof.
  assert (H : 7 ∉ _used (__init__ 4)) by (cbn; apply not_elem_of_empty).
  split; [exact H |].
  apply (proj1 free_unused_is_noop (__init__ 4) 7 H).
Defined.

(** X4: on an allocator reached from [__init__(n)], a label that
    [request()] returns lies in [[1, n)] and was not in use. *)
Theorem request_returns_unused_label_in_range
    (n : Z) (calls : list call) label self' :
  request (run calls (__init__ n)) = (Ok label, self') ->
  1 <= label < n /\
  (label ∉ _used (run calls (__init__ n))) /\
  label ∈ _used self'.
Proof.
  destruct (run_partitioned calls _ (init_partitioned n)) as [[Hd Hu] Hn].
  cbn [__init__ _n] in Hn. rewrite Hn in Hu.
  set (self := run calls (__init__ n)) in *. intros Hreq.
  destruct (decide (_available self = ∅)) as [He|Hne].
  { rewrite request_empty in Hreq by exact He. discriminate. }
  destruct (request_nonempty self Hne) as (l & Hl & Hin & _).
  rewrite Hl in Hreq. injection Hreq as -> <-.
  split; [| split].
  - apply elem_of_range_set. rewrite <- Hu. set_solver.
  - set_solver.
  - cbn [_used]. set_solver.
Qed.

Lemma request_returns_unused_label_in_range_witness :
  request (run [Request; Free (Some 1)] (__init__ 4)) =
    (Ok 1, snd (request (run [Request; Free (Some 1)] (__init__ 4)))) /\
  1 <= 1 < 4 /\
  (1 ∉ _used (run [Request; Free (Some 1)] (__init__ 4))) /\
  1 ∈ _used (snd (request (run [Request; Free (Some 1)] (__init__ 4)))).
Proof.
  assert (H : request (run [Request; Free (Some 1)] (__init__ 4)) =
                (Ok 1, snd (request (run [Request; Free (Some 1)] (__init__ 4)))))
    by (vm_compute; reflexivity).
  split; [exact H |].
  apply (request_returns_unused_label_in_range 4 [Request; Free (Some 1)] 1 _ H).
Defined.

(** X5: on an allocator reached from [__init__(n)], [request()] raises
    the out-of-labels error exactly when every label of [[1, n)] is in
    use. *)
Theorem request_raises_iff_all_used (n : Z) (calls : list call) :
  let self := run calls (__init__ n) in
  fst (request self) = Raise (RuntimeError "out of labels") <->
  _used self = range_set 1 n.
Proof.
  destruct (run_partitioned calls _ (init_partitioned n)) as [[Hd Hu] Hn].
  cbn [__init__ _n] in Hn. rewrite Hn in Hu. cbv zeta.
  set (self := run calls (__init__ n)) in *. split.
  - intros Hr. destruct (decide (_available self = ∅)) as [He|Hne].
    + rewrite <- Hu, He. set_solver.
    + destruct (request_nonempty self Hne) as (l & Hl & _).
      rewrite Hl in Hr. discriminate.
  - intros Hfull. rewrite request_empty; [reflexivity |].
    rewrite Hfull in Hd. rewrite <- Hu in Hd at 1. set_solver.
Qed.

(** X6: a freed label can be handed out again.  On an allocator reached
    from [__init__], after [free(label)] for a label in use the next
    [request()] succeeds and returns [label] itself or a smaller label
    that was free already. *)
Theorem freed_label_is_reused (n : Z) (calls : list call) label :
  let self := run calls (__init__ n) in
  label ∈ _used self ->
  exists label' self',
    request (snd (free (Some label) self)) = (Ok label', self') /\
    label' <= label /\
    (label' = label \/ label' ∈ _available self).
Proof.
  cbv zeta. set (self := run calls (__init__ n)). intros Hin.
  unfold free. rewrite decide_True by exact Hin. cbn [snd].
  destruct (request_nonempty
              {| _available := _available self ∪ {[label]};
                 _used := _used self ∖ {[label]}; _n := _n self |})
    as (l & Hl & Hl1 & Hl2); [cbn; set_solver |].
  cbn [_available] in Hl1, Hl2.
  exists l. eexists. split; [exact Hl |]. split.
  - apply Hl2. set_solver.
  - apply elem_of_union in Hl1 as [H|H]; [now right | left; set_solver].
Qed.

Lemma freed_label_is_reused_witness :
  2 ∈ _used (run [Request; Request; Request] (__init__ 5)) /\
  exists label' self',
    request (snd (free (Some 2) (run [Request; Request; Request] (__init__ 5)))) =
      (Ok label', self') /\
    label' <= 2 /\
    (label' = 2 \/ label' ∈ _available (run [Request; Request; Request] (__init__ 5))).
Proof.
  assert (H : 2 ∈ _used (run [Request; Request; Request] (__init__ 5))).
  { apply (bool_decide_unpack _). vm_compute. exact I. }
  split; [exact H |].
  apply (freed_label_is_reused 5 [Request; Request; Request] 2 H).
Defined.

End LabelManagerMore.

(** ** RenderingManager: further properties *)

Module RenderingManagerMore.
Import numpy numpyFacts RenderingManager RenderingManagerFacts Histories.

Section More.

Context {Color Mesh : Type}.
Implicit Types (self : t Color Mesh) (vol value : ndarray).

(** *** Reconciliation passes *)

(** X7: a second [update()] right after one on the main thread does
    nothing: it returns at the guard and leaves the manager, the scene
    and the log of commands as the first call left them. *)
Theorem update_twice_is_update_once self :
  update "MainThread" (snd (update "MainThread" self)) =
    (Ok tt, snd (update "MainThread" self)).
Proof.
  apply update_clean; [apply update_clears_dirty | reflexivity].
Qed.

Lemma pass_shown_and_generated self vol :
  _dirty self = true ->
  _volume self = Some vol ->
  exists (generate : gset Z) self',
    update "MainThread" self = (Ok tt, self') /\
    Scene.visible_objects (_overview_scene self') ∪ generate =
      unique vol ∖ {[BG_LABEL]} /\
    _mesh_thread self' =
      (if decide (generate ≠ ∅) then Some generate else _mesh_thread self).
Proof.
  intros Hd Hv.
  destruct (update_pass self vol Hd Hv)
    as (removed & known & generate & Hr & Hk & Hg & Hup).
  cbv zeta in Hr, Hk, Hg.
  exists generate. eexists. split; [exact Hup |].
  unfold after_pass. cbn [_overview_scene _mesh_thread Scene.visible_objects].
  split; [| reflexivity].
  apply set_eq. intros l.
  destruct (Scene.shares_visible_objects (_overview_scene self));
    rewrite !elem_of_union, !elem_of_difference, ?elem_of_singleton, Hk, Hr, Hg;
    destruct (decide (l ∈ Scene.visible_objects (_overview_scene self)));
    destruct (decide (l ∈ unique vol)); destruct (decide (l = BG_LABEL));
    destruct (decide (l = CURRENT_LABEL));
    destruct (Scene.has_object (_overview_scene self) l);
    intuition congruence.
Qed.

(** X8: a pass covers the nonzero labels of the volume with two sets:
    the labels the scene shows when [update()] returns, and the labels
    handed to the mesh worker.  Together they are all the nonzero
    labels, and no label other than [CURRENT_LABEL] is in both.  A
    worker is started, and the scene marked busy, exactly when the
    second set is not empty.  This holds for a scene that shares its
    set of visible objects and for one that hands out copies. *)
Theorem pass_splits_labels self vol :
  _dirty self = true ->
  _volume self = Some vol ->
  exists (generate : gset Z) (issued : list (call Mesh)) self',
    update "MainThread" self = (Ok tt, self') /\
    calls self' = calls self ++ issued /\
    Scene.visible_objects (_overview_scene self') ∪ generate =
      unique vol ∖ {[BG_LABEL]} /\
    (forall l, l ∈ Scene.visible_objects (_overview_scene self') ->
               l ∈ generate -> l = CURRENT_LABEL) /\
    (forall g, MeshGenerator g ∈ issued <-> g = generate /\ generate ≠ ∅) /\
    (forall flag, set_busy flag ∈ issued <-> flag = true /\ generate ≠ ∅) /\
    _mesh_thread self' =
      (if decide (generate ≠ ∅) then Some generate else _mesh_thread self) /\
    Scene.busy (_overview_scene self') =
      (if decide (generate ≠ ∅) then true
       else Scene.busy (_overview_scene self)).
Proof.
  intros Hd Hv.
  destruct (update_pass self vol Hd Hv)
    as (removed & known & generate & Hr & Hk & Hg & Hup).
  cbv zeta in Hr, Hk, Hg.
  exists generate. eexists _, _. split; [exact Hup |].
  unfold after_pass.
  cbn [calls _overview_scene _mesh_thread Scene.visible_objects Scene.busy].
  split; [reflexivity |].
  split; [| split; [| split; [| split; [| split; reflexivity]]]].
  - apply set_eq. intros l.
    destruct (Scene.shares_visible_objects (_overview_scene self));
      rewrite !elem_of_union, !elem_of_difference, ?elem_of_singleton, Hk, Hr, Hg;
      destruct (decide (l ∈ Scene.visible_objects (_overview_scene self)));
      destruct (decide (l ∈ unique vol)); destruct (decide (l = BG_LABEL));
      destruct (decide (l = CURRENT_LABEL));
      destruct (Scene.has_object (_overview_scene self) l);
      intuition congruence.
  - intros l.
    destruct (Scene.shares_visible_objects (_overview_scene self));
      rewrite !elem_of_union, !elem_of_difference, ?elem_of_singleton, Hk, Hr, Hg;
      destruct (decide (l = CURRENT_LABEL)); [tauto | | tauto |];
      destruct (Scene.has_object (_overview_scene self) l);
      intuition congruence.
  - intros g. rewrite !elem_of_app. split.
    + intros [H|[H|H]].
      * apply list_elem_of_fmap in H as (l' & Hl & _). discriminate.
      * apply list_elem_of_fmap in H as (l' & Hl & _). discriminate.
      * case_decide; [| now apply elem_of_nil in H].
        apply elem_of_cons in H as [H|H]; [discriminate |].
        apply list_elem_of_singleton in H. injection H as ->. now split.
    + intros [-> Hne]. right. right. rewrite decide_True by exact Hne.
      right. left.
  - intros flag. rewrite !elem_of_app. split.
    + intros [H|[H|H]].
      * apply list_elem_of_fmap in H as (l' & Hl & _). discriminate.
      * apply list_elem_of_fmap in H as (l' & Hl & _). discriminate.
      * case_decide; [| now apply elem_of_nil in H].
        apply elem_of_cons in H as [H|H]; [injection H as ->; now split |].
        apply list_elem_of_singleton in H. discriminate.
    + intros [-> Hne]. right. right. rewrite decide_True by exact Hne. left.
Qed.

(** X9: when the volume holds nothing but background, a pass issues
    [remove_object] for every object the scene shows and nothing else:
    no [add_object], no busy mark, no worker; the scene then shows
    nothing. *)
Theorem pass_on_background_only self vol :
  _dirty self = true ->
  _volume self = Some vol ->
  (forall l, l ∈ unique vol -> l = BG_LABEL) ->
  exists self',
    update "MainThread" self = (Ok tt, self') /\
    calls self' =
      calls self ++
      (remove_object <$> elements (Scene.visible_objects (_overview_scene self))) /\
    Scene.visible_objects (_overview_scene self') = ∅ /\
    Scene.busy (_overview_scene self') = Scene.busy (_overview_scene self) /\
    _mesh_thread self' = _mesh_thread self.
Proof.
  intros Hd Hv Hbg.
  destruct (update_pass self vol Hd Hv)
    as (removed & known & generate & Hr & Hk & Hg & Hup).
  cbv zeta in Hr, Hk, Hg.
  assert (removed = Scene.visible_objects (_overview_scene self)) as ->.
  { apply set_eq. intros l. rewrite Hr. split; [tauto |].
    intros H. split; [exact H |]. intros [H1 H2]. apply H2, Hbg, H1. }
  assert (known = ∅) as ->.
  { apply set_eq. intros l. rewrite Hk, elem_of_empty.
    split; [| tauto]. intros (_ & [H1 H2] & _). apply H2, Hbg, H1. }
  assert (generate = ∅) as ->.
  { apply set_eq. intros l. rewrite Hg, elem_of_empty.
    split; [| tauto]. intros ([H1 H2] & _). apply H2, Hbg, H1. }
  eexists. split; [exact Hup |]. unfold after_pass.
  cbn [calls _overview_scene _mesh_thread Scene.visible_objects Scene.busy].
  rewrite decide_False by (intros H; now apply H).
  rewrite elements_empty, fmap_nil, !app_nil_r.
  split; [reflexivity |]. split; [| split; reflexivity].
  destruct (Scene.shares_visible_objects (_overview_scene self));
    apply set_eq; intros l;
    rewrite elem_of_union, !elem_of_difference, ?elem_of_singleton, elem_of_empty;
    tauto.
Qed.

(** X10: when the volume does not hold [CURRENT_LABEL] and every
    nonzero label in it is shown or has cached geometry, a pass is
    complete when [update()] returns: the scene shows exactly the
    nonzero labels of the volume, it is not marked busy and no worker is
    started. *)
Theorem pass_served_from_cache self vol :
  _dirty self = true ->
  _volume self = Some vol ->
  CURRENT_LABEL ∉ unique vol ->
  (forall l, l ∈ unique vol -> l ≠ BG_LABEL ->
             l ∈ Scene.visible_objects (_overview_scene self) \/
             Scene.has_object (_overview_scene self) l = true) ->
  exists (issued : list (call Mesh)) self',
    update "MainThread" self = (Ok tt, self') /\
    calls self' = calls self ++ issued /\
    Scene.visible_objects (_overview_scene self') = unique vol ∖ {[BG_LABEL]} /\
    (forall c, c ∈ issued ->
               (exists l, c = remove_object l) \/ (exists l, c = add_object l None)) /\
    Scene.busy (_overview_scene self') = Scene.busy (_overview_scene self) /\
    _mesh_thread self' = _mesh_thread self.
Proof.
  intros Hd Hv Hcur Hcached.
  destruct (update_pass self vol Hd Hv)
    as (removed & known & generate & Hr & Hk & Hg & Hup).
  cbv zeta in Hr, Hk, Hg.
  assert (generate = ∅) as ->.
  { apply set_eq. intros l. rewrite Hg, elem_of_empty.
    split; [| tauto]. intros ([H1 H2] & [->|[H3 H4]]); [contradiction |].
    destruct (Hcached l H1 H2); [contradiction | congruence]. }
  eexists _, _. split; [exact Hup |]. unfold after_pass.
  cbn [calls _overview_scene _mesh_thread Scene.visible_objects Scene.busy].
  rewrite decide_False by (intros H; now apply H). rewrite app_nil_r.
  split; [reflexivity |]. split; [| split; [| split; reflexivity]].
  - apply set_eq. intros l.
    destruct (Scene.shares_visible_objects (_overview_scene self));
      rewrite !elem_of_union, !elem_of_difference, ?elem_of_singleton, Hk, Hr;
      destruct (decide (l ∈ Scene.visible_objects (_overview_scene self)));
      destruct (decide (l ∈ unique vol)); destruct (decide (l = BG_LABEL));
      destruct (decide (l = CURRENT_LABEL)); subst;
      try (specialize (Hcached l)); intuition congruence.
  - intros c Hc. apply elem_of_app in Hc as [Hc|Hc];
      apply list_elem_of_fmap in Hc as (l & -> & _); eauto.
Qed.

(** X11: [update()] on any thread, dirty or not, leaves the allocator,
    the colour map, the buffer and the [ready] flag alone. *)
Theorem update_leaves_labels_colours_buffer th self :
  labelmgr (snd (update th self)) = labelmgr self /\
  _cmap (snd (update th self)) = _cmap self /\
  _volume (snd (update th self)) = _volume self /\
  ready (snd (update th self)) = ready self.
Proof. destruct (update_frame th self) as (? & ? & ? & ?). auto. Qed.

(** *** The worker's callbacks *)

Lemma run_app (ops1 ops2 : list (op Color Mesh)) self :
  run (ops1 ++ ops2) self = run ops2 (run ops1 self).
Proof. unfold run. apply foldl_app. Qed.

Lemma run_meshes_delivered (meshes : list (Z * Mesh)) : forall self,
  let self' :=
    run ((fun d => OnMeshGenerated "MainThread" (fst d) (Some (snd d))) <$> meshes)
        self in
  Scene.visible_objects (_overview_scene self') =
    Scene.visible_objects (_overview_scene self) ∪ list_to_set (fst <$> meshes) /\
  Scene.busy (_overview_scene self') = Scene.busy (_overview_scene self) /\
  (forall l, is_Some (Scene.geometry (_overview_scene self) !! l) \/
             l ∈ fst <$> meshes ->
             is_Some (Scene.geometry (_overview_scene self') !! l)).
Proof.
  induction meshes as [|[l m] meshes IH]; intros self.
  - cbn. split; [set_solver |]. split; [reflexivity |].
    intros l [H|H]; [exact H | now apply elem_of_nil in H].
  - cbn [fmap list_fmap run foldl] in *. cbv zeta in *.
    set (s1 := step self (OnMeshGenerated "MainThread" (fst (l, m)) (Some (snd (l, m))))).
    assert (Hs1 : _overview_scene s1 = Scene.add_object l (Some m) (_overview_scene self))
      by reflexivity.
    destruct (IH s1) as (Hvis & Hbusy & Hgeo).
    unfold run in Hvis, Hbusy, Hgeo. rewrite Hvis, Hbusy, Hs1.
    cbn [Scene.visible_objects Scene.busy Scene.add_object list_to_set fst].
    split; [set_solver |]. split; [reflexivity |].
    intros l' H. apply Hgeo. rewrite Hs1. cbn [Scene.geometry Scene.add_object].
    destruct (decide (l' = l)) as [->|Hne].
    + left. rewrite lookup_insert_eq. eauto.
    + destruct H as [H|H].
      * left. now rewrite lookup_insert_ne by congruence.
      * right. apply elem_of_cons in H as [H|H]; [contradiction | exact H].
Qed.

(** X12: reconciliation is complete once the worker is done.  After a
    pass, let the worker call [_on_mesh_generated(label, mesh)] on the
    main thread for the labels it was given, in any order, and then
    [_on_mesh_generated(0, None)]: the scene then shows exactly the
    nonzero labels of the volume, is no longer busy, and has geometry
    cached for every label that was generated. *)
Theorem batch_completes_reconciliation self vol :
  _dirty self = true ->
  _volume self = Some vol ->
  exists generate : gset Z,
    let after_update := snd (update "MainThread" self) in
    _mesh_thread after_update =
      (if decide (generate ≠ ∅) then Some generate else _mesh_thread self) /\
    forall meshes : list (Z * Mesh),
      list_to_set (fst <$> meshes) = generate ->
      let done := run (batch_done meshes) after_update in
      Scene.visible_objects (_overview_scene done) = unique vol ∖ {[BG_LABEL]} /\
      Scene.busy (_overview_scene done) = false /\
      forall l, l ∈ generate ->
                Scene.has_object (_overview_scene done) l = true.
Proof.
  intros Hd Hv.
  destruct (pass_shown_and_generated self vol Hd Hv)
    as (generate & self' & Hup & Hunion & Hmt).
  exists generate. rewrite Hup. cbn [snd]. split; [exact Hmt |].
  intros meshes Hm. unfold batch_done. rewrite run_app.
  destruct (run_meshes_delivered meshes self') as (Hvis & Hbusy & Hgeo).
  cbv zeta in Hvis, Hbusy, Hgeo.
  set (s1 := run _ self') in *.
  change (run [OnMeshGenerated "MainThread" 0 None] s1)
    with (logged (set_busy false) (with_scene (Scene.set_busy false) s1)).
  cbn [_overview_scene logged with_scene Scene.visible_objects Scene.busy
       Scene.set_busy].
  split; [now rewrite Hvis, Hm |]. split; [reflexivity |].
  intros l Hl. unfold Scene.has_object. cbn [Scene.geometry].
  apply bool_decide_eq_true_2, Hgeo. right.
  rewrite <- Hm in Hl. now apply elem_of_list_to_set in Hl.
Qed.

(** *** Objects, labels and colours *)

Lemma with_labelmgr_same self : with_labelmgr (labelmgr self) self = self.
Proof. now destruct self. Qed.

Lemma addObject_Ok color random_color self :
  LabelManager._available (labelmgr self) ≠ ∅ ->
  exists label,
    addObject color random_color self =
      (Ok label,
       with_cmap (insert label (default random_color color))
         (with_labelmgr
            {| LabelManager._available :=
                 LabelManager._available (labelmgr self) ∖ {[label]};
               LabelManager._used := LabelManager._used (labelmgr self) ∪ {[label]};
               LabelManager._n := LabelManager._n (labelmgr self) |} self)) /\
    label ∈ LabelManager._available (labelmgr self) /\
    forall y, y ∈ LabelManager._available (labelmgr self) -> label <= y.
Proof.
  intros Hne.
  destruct (LabelManagerFacts.request_nonempty _ Hne) as (l & Hl & Hin & Hmin).
  exists l. split; [| auto].
  unfold addObject, mbind, M_bind, on_labelmgr. rewrite Hl.
  destruct color; reflexivity.
Qed.

Lemma addObject_Raise color random_color self :
  LabelManager._available (labelmgr self) = ∅ ->
  addObject color random_color self =
    (Raise (RuntimeError "out of labels"), self).
Proof.
  intros He. unfold addObject, mbind, M_bind, on_labelmgr.
  rewrite (LabelManagerFacts.request_empty _ He).
  now rewrite with_labelmgr_same.
Qed.

(** X13: with a label available, [addObject(color)] returns the
    smallest one, marks it used and records its colour (the random one
    when no colour is given); the colours of the other labels, the
    buffer, the dirty flag, the scene and the log are untouched. *)
Theorem addObject_allocates_and_colours color random_color self :
  LabelManager._available (labelmgr self) ≠ ∅ ->
  exists label self',
    addObject color random_color self = (Ok label, self') /\
    label ∈ LabelManager._available (labelmgr self) /\
    (forall y, y ∈ LabelManager._available (labelmgr self) -> label <= y) /\
    LabelManager._used (labelmgr self') =
      LabelManager._used (labelmgr self) ∪ {[label]} /\
    LabelManager._available (labelmgr self') =
      LabelManager._available (labelmgr self) ∖ {[label]} /\
    _cmap self' !! label = Some (default random_color color) /\
    (forall l, l ≠ label -> _cmap self' !! l = _cmap self !! l) /\
    _volume self' = _volume self /\
    _dirty self' = _dirty self /\
    _overview_scene self' = _overview_scene self /\
    calls self' = calls self.
Proof.
  intros Hne.
  destruct (addObject_Ok color random_color self Hne) as (l & Hadd & Hin & Hmin).
  exists l. eexists. split; [exact Hadd |].
  cbn [labelmgr _cmap _volume _dirty _overview_scene calls with_cmap with_labelmgr
       LabelManager._used LabelManager._available].
  repeat split; try assumption.
  - apply lookup_insert_eq.
  - intros l' Hl'. now rewrite lookup_insert_ne by congruence.
Qed.

(** *** What every history keeps *)

Lemma volume_setter_frame th value self :
  labelmgr (snd (volume_setter th value self)) = labelmgr self /\
  _cmap (snd (volume_setter th value self)) = _cmap self.
Proof.
  destruct (volume_setter_cases th value self)
    as [[r ->]|(vol & w & _ & _ & _ & _ & ->)]; [auto |].
  destruct (update_frame th (with_dirty true (with_volume w self)))
    as (-> & _ & -> & _).
  auto.
Qed.

Lemma handle_scene_init_unfold th self :
  _handle_scene_init th self =
    update th (snd (setup (Scene.dataShape (_overview_scene self)) self)).
Proof. reflexivity. Qed.

Lemma step_labelmgr self (o : op Color Mesh) :
  labelmgr (step self o) =
    match o with
    | AddObject _ _ => snd (LabelManager.request (labelmgr self))
    | RemoveObject label => snd (LabelManager.free label (labelmgr self))
    | Clear => match _volume self with
               | Some _ => LabelManager.__init__ (LabelManager._n (labelmgr self))
               | None => labelmgr self
               end
    | _ => labelmgr self
    end.
Proof.
  destruct o; cbn [step].
  - reflexivity.
  - now destruct (update_frame thread_name self) as (? & ? & ? & ?).
  - unfold _on_mesh_generated.
    destruct (is_main_thread thread_name); cbn [negb]; [| reflexivity].
    destruct mesh; [reflexivity |]. case_decide; reflexivity.
  - reflexivity.
  - unfold volume, mbind, M_bind, read_volume. destruct (_volume self); reflexivity.
  - apply volume_setter_frame.
  - unfold addObject, mbind, M_bind, on_labelmgr.
    destruct (LabelManager.request (labelmgr self)) as [[l|e] lm]; reflexivity.
  - unfold removeObject, on_labelmgr.
    destruct (LabelManager.free label (labelmgr self)) as [[[]|e] lm]; reflexivity.
  - unfold clear, mbind, M_bind, read_volume.
    destruct (_volume self); reflexivity.
  - rewrite handle_scene_init_unfold.
    destruct (update_frame thread_name
                (snd (setup (Scene.dataShape (_overview_scene self)) self)))
      as (-> & _). reflexivity.
  - reflexivity.
Qed.

Lemma step_cmap self (o : op Color Mesh) :
  _cmap (step self o) =
    match o with
    | SetColor label color => <[label := color]> (_cmap self)
    | AddObject color random_color =>
        match LabelManager.request (labelmgr self) with
        | (Ok label, _) => <[label := default random_color color]> (_cmap self)
        | _ => _cmap self
        end
    | _ => _cmap self
    end.
Proof.
  destruct o; cbn [step].
  - reflexivity.
  - now destruct (update_frame thread_name self) as (? & ? & ? & ?).
  - unfold _on_mesh_generated.
    destruct (is_main_thread thread_name); cbn [negb]; [| reflexivity].
    destruct mesh; [reflexivity |]. case_decide; reflexivity.
  - reflexivity.
  - unfold volume, mbind, M_bind, read_volume. destruct (_volume self); reflexivity.
  - apply volume_setter_frame.
  - unfold addObject, mbind, M_bind, on_labelmgr.
    destruct (LabelManager.request (labelmgr self)) as [[l|e] lm];
      destruct color; reflexivity.
  - unfold removeObject, on_labelmgr.
    destruct (LabelManager.free label (labelmgr self)) as [[[]|e] lm]; reflexivity.
  - unfold clear, mbind, M_bind, read_volume.
    destruct (_volume self); reflexivity.
  - rewrite handle_scene_init_unfold.
    destruct (update_frame thread_name
                (snd (setup (Scene.dataShape (_overview_scene self)) self)))
      as (_ & _ & -> & _). reflexivity.
  - reflexivity.
Qed.

Lemma step_allocator_sound self (o : op Color Mesh) :
  allocator_sound self -> allocator_sound (step self o).
Proof.
  intros [Hp Hn]. unfold allocator_sound. rewrite step_labelmgr.
  destruct o; try (split; assumption).
  - destruct (LabelManagerFacts.request_partitioned _ Hp) as [H1 H2].
    split; [exact H1 | congruence].
  - destruct (LabelManagerFacts.free_partitioned label _ Hp) as [H1 H2].
    split; [exact H1 | congruence].
  - destruct (_volume self); [| split; assumption].
    split; [apply LabelManagerFacts.init_partitioned | exact Hn].
Qed.

Lemma step_used_labels_coloured self (o : op Color Mesh) :
  used_labels_coloured self -> used_labels_coloured (step self o).
Proof.
  intros H label. rewrite step_labelmgr, step_cmap.
  destruct o; try apply H.
  - intros Hl. destruct (decide (label = label0)) as [->|Hne].
    + rewrite lookup_insert_eq. eauto.
    + rewrite lookup_insert_ne by congruence. now apply H.
  - unfold LabelManager.request.
    case_decide; [apply H |].
    destruct (py_min _) as [l|]; [| apply H].
    cbn [snd LabelManager._used]. intros Hl.
    destruct (decide (label = l)) as [->|Hne].
    + rewrite lookup_insert_eq. eauto.
    + rewrite lookup_insert_ne by congruence. apply H. set_solver.
  - unfold LabelManager.free. destruct label0 as [l|].
    + case_decide; cbn [snd LabelManager._used]; [| apply H].
      intros Hl. apply H. set_solver.
    + cbn [snd LabelManager._used]. set_solver.
  - destruct (_volume self); [| apply H].
    cbn [LabelManager.__init__ LabelManager._used]. set_solver.
Qed.

Lemma run_allocator_sound (ops : list (op Color Mesh)) : forall self,
  allocator_sound self -> allocator_sound (run ops self).
Proof.
  induction ops as [|o ops IH]; intros self H; [exact H |].
  apply IH, step_allocator_sound, H.
Qed.

Lemma run_used_labels_coloured (ops : list (op Color Mesh)) : forall self,
  used_labels_coloured self -> used_labels_coloured (run ops self).
Proof.
  induction ops as [|o ops IH]; intros self H; [exact H |].
  apply IH, step_used_labels_coloured, H.
Qed.

Lemma init_allocator_sound (sc : Scene.t Mesh) :
  allocator_sound (__init__ (Color := Color) sc).
Proof. split; [apply LabelManagerFacts.init_partitioned | reflexivity]. Qed.

(** X14: whatever operations a manager has gone through (on any
    thread, raising or not, while the scene changes on its own), its
    allocator keeps [_available] and [_used] disjoint with union
    [[1, 256)], and every label in use has a colour in the colour map. *)
Theorem allocator_and_colours_invariant
    (overview_scene : Scene.t Mesh) (ops : list (op Color Mesh)) :
  let self := run ops (__init__ overview_scene) in
  LabelManager._available (labelmgr self) ## LabelManager._used (labelmgr self) /\
  LabelManager._available (labelmgr self) ∪ LabelManager._used (labelmgr self) =
    range_set 1 NOBJECTS /\
  forall label, label ∈ LabelManager._used (labelmgr self) ->
                1 <= label < NOBJECTS /\ is_Some (_cmap self !! label).
Proof.
  cbv zeta.
  destruct (run_allocator_sound ops _ (init_allocator_sound overview_scene))
    as [[Hd Hu] Hn].
  rewrite Hn in Hu. split; [exact Hd |]. split; [exact Hu |].
  intros label Hl. split.
  - apply elem_of_range_set. rewrite <- Hu. apply elem_of_union. now right.
  - apply (run_used_labels_coloured ops (__init__ overview_scene)); [| exact Hl].
    intros l Hl'. cbn in Hl'. now apply elem_of_empty in Hl'.
Qed.

(** X15: in a manager with any history, [addObject] raises the
    out-of-labels error, leaving the manager as it was, when all 255
    labels are in use; otherwise it returns a label of [[1, 256)] that
    was not in use. *)
Theorem addObject_capacity
    (overview_scene : Scene.t Mesh) (ops : list (op Color Mesh))
    color random_color :
  let self := run ops (__init__ overview_scene) in
  (LabelManager._used (labelmgr self) = range_set 1 NOBJECTS ->
   addObject color random_color self =
     (Raise (RuntimeError "out of labels"), self)) /\
  (LabelManager._used (labelmgr self) ≠ range_set 1 NOBJECTS ->
   exists label self',
     addObject color random_color self = (Ok label, self') /\
     1 <= label < NOBJECTS /\
     label ∉ LabelManager._used (labelmgr self)).
Proof.
  cbv zeta.
  destruct (run_allocator_sound ops _ (init_allocator_sound overview_scene))
    as [[Hd Hu] Hn].
  rewrite Hn in Hu. set (self := run ops (__init__ overview_scene)) in *.
  split.
  - intros Hfull. apply addObject_Raise.
    apply elem_of_equiv_empty_L. intros x Hx.
    rewrite elem_of_disjoint in Hd. apply (Hd x Hx).
    rewrite Hfull, <- Hu. apply elem_of_union. now left.
  - intros Hnot.
    assert (Hne : LabelManager._available (labelmgr self) ≠ ∅).
    { intros He. apply Hnot. rewrite <- Hu, He. now rewrite union_empty_l_L. }
    destruct (addObject_Ok color random_color self Hne) as (l & Hadd & Hin & _).
    exists l. eexists. split; [exact Hadd |]. split.
    + apply elem_of_range_set. rewrite <- Hu. apply elem_of_union. now left.
    + rewrite elem_of_disjoint in Hd. intros Hused. exact (Hd l Hin Hused).
Qed.

(** X16: colours outlive their labels, and freed labels come back.  In
    a manager with any history, after [addObject] has returned [label]
    and [removeObject(label)] has freed it, the allocator is as it was
    before the [addObject], the colour map still holds the colour of
    [label], and the next [addObject] returns [label] again and
    replaces that colour. *)
Theorem removed_label_keeps_colour_until_reused
    (overview_scene : Scene.t Mesh) (ops : list (op Color Mesh))
    color1 random1 color2 random2 label self1 :
  let self := run ops (__init__ overview_scene) in
  addObject color1 random1 self = (Ok label, self1) ->
  let self2 := snd (removeObject (Some label) self1) in
  labelmgr self2 = labelmgr self /\
  _cmap self2 !! label = Some (default random1 color1) /\
  exists self3,
    addObject color2 random2 self2 = (Ok label, self3) /\
    _cmap self3 !! label = Some (default random2 color2).
Proof.
  cbv zeta. set (self := run ops (__init__ overview_scene)). intros Hadd.
  destruct (run_allocator_sound ops _ (init_allocator_sound overview_scene))
    as [Hp _]. fold self in Hp.
  destruct (decide (LabelManager._available (labelmgr self) = ∅)) as [He|Hne].
  { rewrite addObject_Raise in Hadd by exact He. discriminate. }
  destruct (addObject_Ok color1 random1 self Hne) as (l & Hl & Hin & Hmin).
  rewrite Hl in Hadd. injection Hadd as -> <-.
  destruct (LabelManagerFacts.request_nonempty _ Hne) as (l' & Hreq & Hin' & Hmin').
  assert (l' = label) as -> by (apply Z.le_antisymm; auto).
  pose proof (LabelManagerMore.request_free_inverse _ _ _ Hp Hreq) as Hfree.
  unfold removeObject, on_labelmgr.
  cbn [labelmgr with_cmap with_labelmgr]. rewrite Hfree.
  cbn [snd labelmgr _cmap with_cmap with_labelmgr].
  split; [reflexivity |]. split; [apply lookup_insert_eq |].
  set (self2 := with_labelmgr (labelmgr self) _).
  destruct (addObject_Ok color2 random2 self2 Hne) as (l2 & Hl2 & Hin2 & Hmin2).
  cbn [labelmgr self2 with_labelmgr] in Hin2, Hmin2.
  assert (l2 = label) as -> by (apply Z.le_antisymm; auto).
  eexists. split; [exact Hl2 |].
  cbn [_cmap with_cmap]. apply lookup_insert_eq.
Qed.

(** *** Setting up and clearing *)

Lemma cast_zero dt : cast dt 0 = 0.
Proof. destruct dt; reflexivity. Qed.

(** X17: on a manager with any history whose buffer exists, [clear()]
    returns normally, fills the buffer with zeros (same shape), puts the
    allocator back in its initial state and leaves the colour map, the
    scene and the log alone; the [addObject] that follows returns
    label 1. *)
Theorem clear_zeroes_and_resets_labels
    (overview_scene : Scene.t Mesh) (ops : list (op Color Mesh)) vol :
  let self := run ops (__init__ overview_scene) in
  _volume self = Some vol ->
  exists self' vol',
    clear self = (Ok tt, self') /\
    labelmgr self' = LabelManager.__init__ NOBJECTS /\
    _volume self' = Some vol' /\
    shape vol' = shape vol /\
    (forall idx, item vol' idx = 0) /\
    _cmap self' = _cmap self /\
    _overview_scene self' = _overview_scene self /\
    calls self' = calls self /\
    forall color random_color,
      fst (addObject color random_color self') = Ok 1.
Proof.
  cbv zeta. set (self := run ops (__init__ overview_scene)). intros Hv.
  destruct (run_allocator_sound ops _ (init_allocator_sound overview_scene))
    as [_ Hn]. fold self in Hn.
  eexists _, _. split.
  { unfold clear, mbind, M_bind, read_volume, modify, on_labelmgr.
    rewrite Hv. cbn [fst snd labelmgr with_volume LabelManager.free].
    rewrite Hn. reflexivity. }
  cbn [labelmgr _volume _cmap _overview_scene calls with_labelmgr with_volume].
  split; [reflexivity |]. split; [reflexivity |]. split; [reflexivity |].
  split; [intros idx; apply cast_zero |].
  split; [reflexivity |]. split; [reflexivity |]. split; [reflexivity |].
  intros color random_color.
  set (self' := with_labelmgr _ _).
  assert (Hin1 : 1 ∈ LabelManager._available (labelmgr self')).
  { cbn. apply elem_of_range_set. unfold NOBJECTS. lia. }
  destruct (addObject_Ok color random_color self') as (l & -> & Hin & Hmin).
  { intros He. rewrite He in Hin1. now apply elem_of_empty in Hin1. }
  cbn [fst]. f_equal. apply Z.le_antisymm; [now apply Hmin |].
  cbn in Hin. apply elem_of_range_set in Hin. lia.
Qed.

Lemma volume_setter_ready th value self :
  ready (snd (volume_setter th value self)) = ready self /\
  (is_Some (_volume (snd (volume_setter th value self))) <->
   is_Some (_volume self)).
Proof.
  destruct (volume_setter_cases th value self)
    as [[r ->]|(vol & w & Hv & _ & _ & _ & ->)]; [split; reflexivity |].
  destruct (update_frame th (with_dirty true (with_volume w self)))
    as (_ & -> & _ & ->).
  cbn. rewrite Hv. split; [reflexivity |]. split; eauto.
Qed.

Lemma step_ready self (o : op Color Mesh) :
  (ready self = true <-> is_Some (_volume self)) ->
  (ready (step self o) = true <-> is_Some (_volume (step self o))).
Proof.
  intros H. destruct o; cbn [step]; try exact H.
  - cbn. split; eauto.
  - destruct (update_frame thread_name self) as (_ & -> & _ & ->). exact H.
  - unfold _on_mesh_generated.
    destruct (is_main_thread thread_name); cbn [negb]; [| exact H].
    destruct mesh; [exact H |]. case_decide; exact H.
  - unfold volume, mbind, M_bind, mret, M_ret, read_volume.
    destruct (_volume self) eqn:Hv; cbn [snd]; rewrite Hv; exact H.
  - destruct (volume_setter_ready thread_name value self) as [-> ->]. exact H.
  - unfold addObject, mbind, M_bind, on_labelmgr.
    destruct (LabelManager.request (labelmgr self)) as [[l|e] lm]; exact H.
  - unfold removeObject, on_labelmgr.
    destruct (LabelManager.free label (labelmgr self)) as [[[]|e] lm]; exact H.
  - unfold clear, mbind, M_bind, read_volume.
    destruct (_volume self) eqn:Hv; [| cbn [snd]; rewrite Hv; exact H].
    cbn. rewrite H. split; eauto.
  - rewrite handle_scene_init_unfold.
    destruct (update_frame thread_name
                (snd (setup (Scene.dataShape (_overview_scene self)) self)))
      as (_ & -> & _ & ->).
    cbn. split; eauto.
Qed.

Lemma run_ready (ops : list (op Color Mesh)) : forall self,
  (ready self = true <-> is_Some (_volume self)) ->
  (ready (run ops self) = true <-> is_Some (_volume (run ops self))).
Proof.
  induction ops as [|o ops IH]; intros self H; [exact H |].
  apply IH, step_ready, H.
Qed.

(** X18: [ready] tells whether the volume can be used.  In a manager
    with any history, while [ready] is false the [volume] property, its
    setter and [clear()] raise AttributeError and change nothing (in
    particular [clear()] does not reset the allocator); once [ready] is
    true, reading [volume] and [clear()] return normally. *)
Theorem ready_iff_volume_usable
    (overview_scene : Scene.t Mesh) (ops : list (op Color Mesh)) th value :
  let self := run ops (__init__ overview_scene) in
  (ready self = false ->
   volume self = (Raise AttributeError, self) /\
   volume_setter th value self = (Raise AttributeError, self) /\
   clear self = (Raise AttributeError, self)) /\
  (ready self = true ->
   (exists cur, volume self = (Ok cur, self)) /\
   fst (clear self) = Ok tt).
Proof.
  cbv zeta. set (self := run ops (__init__ overview_scene)).
  assert (H : ready self = true <-> is_Some (_volume self)).
  { apply run_ready. cbn. split; [discriminate | intros [? ?]; discriminate]. }
  split.
  - intros Hr. assert (Hv : _volume self = None).
    { destruct (_volume self) eqn:Hv; [| reflexivity].
      rewrite (proj2 H) in Hr by eauto. discriminate. }
    unfold volume, volume_setter, clear, mbind, M_bind, read_volume.
    rewrite Hv. auto.
  - intros Hr. apply H in Hr as [vol Hv]. split.
    + exists (transpose vol). now apply volume_Some.
    + unfold clear, mbind, M_bind, read_volume, modify, on_labelmgr.
      rewrite Hv. reflexivity.
Qed.

(** X19: the handler of the scene's [reinitialized] signal, run on the
    main thread with the dirty flag down, replaces the buffer by zeros
    of the scene's [dataShape] and sets [ready]; it sends nothing to
    the scene, which goes on showing what it showed. *)
Theorem scene_reinitialized_when_clean self :
  _dirty self = false ->
  exists self' cur,
    _handle_scene_init "MainThread" self = (Ok tt, self') /\
    ready self' = true /\
    volume self' = (Ok cur, self') /\
    shape cur = Scene.dataShape (_overview_scene self) /\
    dtype_of cur = uint8 /\
    (forall idx, item cur idx = 0) /\
    _dirty self' = false /\
    _overview_scene self' = _overview_scene self /\
    calls self' = calls self /\
    _mesh_thread self' = _mesh_thread self /\
    labelmgr self' = labelmgr self /\
    _cmap self' = _cmap self.
Proof.
  intros Hd. eexists _, _. split.
  { rewrite handle_scene_init_unfold. apply update_clean; [exact Hd | reflexivity]. }
  split; [reflexivity |].
  split; [apply volume_Some; reflexivity |].
  cbn. rewrite rev_involutive. repeat split; try reflexivity. exact Hd.
Qed.

(** *** Threads and the dirty flag *)

(** X20: a write of a differing value from a thread other than the main
    one raises AssertionError only after the buffer has been
    overwritten and the flag raised: nothing has been sent to the
    scene, the new contents and the raised flag stay, and the next
    [update()] on the main thread lowers the flag. *)
Theorem volume_setter_off_main_thread th self vol value :
  is_main_thread th = false ->
  _volume self = Some vol ->
  shape value = rev (shape vol) ->
  any_ne (transpose value) vol = true ->
  exists self',
    volume_setter th value self = (Raise AssertionError, self') /\
    _volume self' = Some (assign vol (transpose value)) /\
    _dirty self' = true /\
    _overview_scene self' = _overview_scene self /\
    calls self' = calls self /\
    _dirty (snd (update "MainThread" self')) = false.
Proof.
  intros Hth Hv Hs Hne. eexists. split.
  { rewrite (volume_setter_unfold th value self vol Hv Hs), Hne.
    apply update_off_main_thread, Hth. }
  repeat split; try reflexivity. apply update_clears_dirty.
Qed.

Lemma step_keeps_clean self (o : op Color Mesh) :
  on_main_thread o -> _dirty self = false -> _dirty (step self o) = false.
Proof.
  intros Hmain Hd. destruct o; cbn [step on_main_thread] in *; try exact Hd.
  - apply is_main_thread_true in Hmain. subst. apply update_clears_dirty.
  - unfold _on_mesh_generated. rewrite Hmain. cbn [negb].
    destruct mesh; [exact Hd |]. case_decide; exact Hd.
  - unfold volume, mbind, M_bind, read_volume. destruct (_volume self); exact Hd.
  - apply is_main_thread_true in Hmain. subst.
    destruct (volume_setter_cases "MainThread" value self)
      as [[r ->]|(vol & w & _ & _ & _ & _ & ->)]; [exact Hd |].
    apply update_clears_dirty.
  - unfold addObject, mbind, M_bind, on_labelmgr.
    destruct (LabelManager.request (labelmgr self)) as [[l|e] lm]; exact Hd.
  - unfold removeObject, on_labelmgr.
    destruct (LabelManager.free label (labelmgr self)) as [[[]|e] lm]; exact Hd.
  - now rewrite clear_keeps_dirty.
  - apply is_main_thread_true in Hmain. subst.
    rewrite handle_scene_init_unfold. apply update_clears_dirty.
Qed.

(** X21: as long as every call that names a thread is made on the main
    thread, the dirty flag is down after each operation: a change of
    the buffer through the setter is reconciled within the same call. *)
Theorem dirty_flag_down_on_main_thread
    (overview_scene : Scene.t Mesh) (ops : list (op Color Mesh)) :
  Forall on_main_thread ops ->
  _dirty (run ops (__init__ overview_scene)) = false.
Proof.
  assert (H : forall self, Forall on_main_thread ops ->
            _dirty self = false -> _dirty (run ops self) = false).
  { induction ops as [|o ops IH]; intros self Hall Hd; [exact Hd |].
    inversion Hall as [|? ? Ho Hops]; subst.
    apply IH; [exact Hops |]. now apply step_keeps_clean. }
  intros Hall. now apply H.
Qed.

(** X22: setting the same value twice triggers one pass, not two.  In a
    manager with any history, after an array of the configured shape
    with elements in [[0, 255]] has been written, writing it again (on
    any thread) returns normally and changes nothing. *)
Theorem volume_setter_twice
    (overview_scene : Scene.t Mesh) (ops : list (op Color Mesh))
    th th' vol value :
  let self := run ops (__init__ overview_scene) in
  _volume self = Some vol ->
  shape value = rev (shape vol) ->
  (forall idx, in_bounds idx (shape value) -> 0 <= item value idx < 256) ->
  let self1 := snd (volume_setter th value self) in
  volume_setter th' value self1 = (Ok tt, self1).
Proof.
  cbv zeta. intros Hv Hs Hrange.
  assert (Hinv : volume_is_uint8 (run ops (__init__ overview_scene)))
    by apply run_volume_is_uint8, init_volume_is_uint8.
  destruct (volume_setter_elements th _ vol value Hinv Hv Hs)
    as (_ & vol' & Hv' & _ & Hs' & Helt & _).
  cbv zeta in Hv'.
  rewrite (volume_setter_unfold th' value _ vol' Hv') by congruence.
  replace (any_ne (transpose value) vol') with false; [reflexivity |].
  symmetry. apply any_ne_false. intros idx Hidx. cbn [item transpose].
  assert (Hb : in_bounds (rev idx) (shape value)).
  { rewrite Hs. apply in_bounds_rev. congruence. }
  pose proof (Helt (rev idx) Hb) as He. rewrite rev_involutive in He.
  rewrite He. symmetry. apply Z.mod_small, Hrange, Hb.
Qed.

End More.

(** *** The properties on concrete managers *)

Import Examples MoreExamples.

Lemma pass_splits_labels_witness :
  _dirty scenario2 = true /\
  exists (generate : gset Z) (issued : list (call unit)) self',
    update "MainThread" scenario2 = (Ok tt, self') /\
    calls self' = calls scenario2 ++ issued /\
    Scene.visible_objects (_overview_scene self') ∪ generate =
      unique (array3 uint8 [[[0]]; [[2]]; [[3]]]) ∖ {[BG_LABEL]} /\
    (forall l, l ∈ Scene.visible_objects (_overview_scene self') ->
               l ∈ generate -> l = CURRENT_LABEL) /\
    (forall g, MeshGenerator g ∈ issued <-> g = generate /\ generate ≠ ∅) /\
    (forall flag, set_busy flag ∈ issued <-> flag = true /\ generate ≠ ∅) /\
    _mesh_thread self' =
      (if decide (generate ≠ ∅) then Some generate else _mesh_thread scenario2) /\
    Scene.busy (_overview_scene self') =
      (if decide (generate ≠ ∅) then true
       else Scene.busy (_overview_scene scenario2)).
Proof.
  split; [reflexivity |].
  apply (pass_splits_labels scenario2 (array3 uint8 [[[0]]; [[2]]; [[3]]]));
    reflexivity.
Defined.

Lemma pass_on_background_only_witness :
  _dirty emptied = true /\
  (forall l, l ∈ unique (array3 uint8 [[[0]]]) -> l = BG_LABEL) /\
  exists self',
    update "MainThread" emptied = (Ok tt, self') /\
    calls self' =
      calls emptied ++
      (remove_object <$> elements (Scene.visible_objects (_overview_scene emptied))) /\
    Scene.visible_objects (_overview_scene self') = ∅ /\
    Scene.busy (_overview_scene self') = Scene.busy (_overview_scene emptied) /\
    _mesh_thread self' = _mesh_thread emptied.
Proof.
  assert (Hbg : forall l, l ∈ unique (array3 uint8 [[[0]]]) -> l = BG_LABEL).
  { intros l Hl. apply elem_of_unique in Hl as (idx & Hidx & <-).
    apply elem_of_indices in Hidx. cbn in Hidx.
    apply list_elem_of_singleton in Hidx. now subst idx. }
  split; [reflexivity |]. split; [exact Hbg |].
  apply (pass_on_background_only emptied (array3 uint8 [[[0]]]));
    [reflexivity | reflexivity | exact Hbg].
Defined.

Lemma pass_served_from_cache_witness :
  _dirty all_cached = true /\
  (CURRENT_LABEL ∉ unique (array3 uint8 [[[0]]; [[2]]; [[3]]])) /\
  exists (issued : list (call unit)) self',
    update "MainThread" all_cached = (Ok tt, self') /\
    calls self' = calls all_cached ++ issued /\
    Scene.visible_objects (_overview_scene self') =
      unique (array3 uint8 [[[0]]; [[2]]; [[3]]]) ∖ {[BG_LABEL]} /\
    (forall c, c ∈ issued ->
               (exists l, c = remove_object l) \/ (exists l, c = add_object l None)) /\
    Scene.busy (_overview_scene self') = Scene.busy (_overview_scene all_cached) /\
    _mesh_thread self' = _mesh_thread all_cached.
Proof.
  assert (Hu : unique (array3 uint8 [[[0]]; [[2]]; [[3]]]) = {[0; 2; 3]})
    by (vm_compute; reflexivity).
  assert (Hcur : CURRENT_LABEL ∉ unique (array3 uint8 [[[0]]; [[2]]; [[3]]])).
  { rewrite Hu. unfold CURRENT_LABEL. set_unfold. lia. }
  split; [reflexivity |]. split; [exact Hcur |].
  apply (pass_served_from_cache all_cached (array3 uint8 [[[0]]; [[2]]; [[3]]]));
    [reflexivity | reflexivity | exact Hcur |].
  intros l Hl Hne. rewrite Hu in Hl. unfold BG_LABEL in Hne.
  assert (l = 2 \/ l = 3) as [->| ->] by (set_unfold; lia).
  - left. cbn. set_solver.
  - right. reflexivity.
Defined.

Lemma batch_completes_reconciliation_witness :
  _dirty scenario2 = true /\
  exists generate : gset Z,
    let after_update := snd (update "MainThread" scenario2) in
    _mesh_thread after_update =
      (if decide (generate ≠ ∅) then Some generate else _mesh_thread scenario2) /\
    forall meshes : list (Z * unit),
      list_to_set (fst <$> meshes) = generate ->
      let done := run (Color := unit) (batch_done meshes) after_update in
      Scene.visible_objects (_overview_scene done) =
        unique (array3 uint8 [[[0]]; [[2]]; [[3]]]) ∖ {[BG_LABEL]} /\
      Scene.busy (_overview_scene done) = false /\
      forall l, l ∈ generate ->
                Scene.has_object (_overview_scene done) l = true.
Proof.
  split; [reflexivity |].
  apply (batch_completes_reconciliation scenario2
           (array3 uint8 [[[0]]; [[2]]; [[3]]])); reflexivity.
Defined.

Lemma addObject_allocates_and_colours_witness :
  LabelManager._available (labelmgr fresh) ≠ ∅ /\
  exists label self',
    addObject (Some tt) tt fresh = (Ok label, self') /\
    label ∈ LabelManager._available (labelmgr fresh) /\
    (forall y, y ∈ LabelManager._available (labelmgr fresh) -> label <= y) /\
    LabelManager._used (labelmgr self') =
      LabelManager._used (labelmgr fresh) ∪ {[label]} /\
    LabelManager._available (labelmgr self') =
      LabelManager._available (labelmgr fresh) ∖ {[label]} /\
    _cmap self' !! label = Some tt /\
    (forall l, l ≠ label -> _cmap self' !! l = _cmap fresh !! l) /\
    _volume self' = _volume fresh /\
    _dirty self' = _dirty fresh /\
    _overview_scene self' = _overview_scene fresh /\
    calls self' = calls fresh.
Proof.
  assert (Hne : LabelManager._available (labelmgr fresh) ≠ ∅).
  { intros H. apply (f_equal (fun X => bool_decide (1 ∈ X))) in H.
    vm_compute in H. discriminate. }
  split; [exact Hne |].
  apply (addObject_allocates_and_colours (Some tt) tt fresh Hne).
Defined.

Lemma addObject_capacity_witness :
  LabelManager._used (labelmgr (run (Color := unit) [] (__init__ empty_scene))) ≠
    range_set 1 NOBJECTS /\
  exists label self',
    addObject None tt (run [] (__init__ empty_scene)) = (Ok label, self') /\
    1 <= label < NOBJECTS /\
    (label ∉ LabelManager._used (labelmgr (run (Color := unit) [] (__init__ empty_scene)))).
Proof.
  assert (Hne : LabelManager._used
                  (labelmgr (run (Color := unit) [] (__init__ empty_scene))) ≠
                range_set 1 NOBJECTS).
  { intros H. apply (f_equal (fun X => bool_decide (1 ∈ X))) in H.
    vm_compute in H. discriminate. }
  split; [exact Hne |].
  apply (proj2 (addObject_capacity empty_scene [] None tt) Hne).
Defined.

Lemma removed_label_keeps_colour_until_reused_witness :
  let self := run (Color := unit) [Setup [1; 1; 1]%nat] (__init__ empty_scene) in
  let self1 := snd (addObject (Some tt) tt self) in
  addObject (Some tt) tt self = (Ok 1, self1) /\
  let self2 := snd (removeObject (Some 1) self1) in
  labelmgr self2 = labelmgr self /\
  _cmap self2 !! 1 = Some tt /\
  exists self3,
    addObject None tt self2 = (Ok 1, self3) /\
    _cmap self3 !! 1 = Some tt.
Proof.
  cbv zeta.
  assert (H : addObject (Some tt) tt
                (run (Color := unit) [Setup [1; 1; 1]%nat] (__init__ empty_scene)) =
              (Ok 1, snd (addObject (Some tt) tt
                (run (Color := unit) [Setup [1; 1; 1]%nat] (__init__ empty_scene))))).
  { destruct (addObject_Ok (Some tt) tt
                (run (Color := unit) [Setup [1; 1; 1]%nat] (__init__ empty_scene)))
      as (l & Hl & Hin & Hmin).
    - intros He. apply (f_equal (fun X => bool_decide (1 ∈ X))) in He.
      vm_compute in He. discriminate.
    - rewrite Hl. cbn [snd]. do 2 f_equal.
      cbn in Hin, Hmin. apply Z.le_antisymm.
      + apply elem_of_range_set in Hin. unfold NOBJECTS in Hin.
        assert (H1 : 1 ∈ range_set 1 NOBJECTS)
          by (apply elem_of_range_set; unfold NOBJECTS; lia).
        specialize (Hmin 1 H1). lia.
      + apply elem_of_range_set in Hin. lia. }
  split; [exact H |].
  apply (removed_label_keeps_colour_until_reused empty_scene
           [Setup [1; 1; 1]%nat] (Some tt) tt None tt 1 _ H).
Defined.

Lemma clear_zeroes_and_resets_labels_witness :
  let self := run (Color := unit)
                [Setup [1; 1; 1]%nat; AddObject (Some tt) tt] (__init__ empty_scene) in
  _volume self = Some (zeros [1; 1; 1]%nat uint8) /\
  exists self' vol',
    clear self = (Ok tt, self') /\
    labelmgr self' = LabelManager.__init__ NOBJECTS /\
    _volume self' = Some vol' /\
    shape vol' = shape (zeros [1; 1; 1]%nat uint8) /\
    (forall idx, item vol' idx = 0) /\
    _cmap self' = _cmap self /\
    _overview_scene self' = _overview_scene self /\
    calls self' = calls self /\
    forall color random_color,
      fst (addObject color random_color self') = Ok 1.
Proof.
  cbv zeta.
  assert (H : _volume (run (Color := unit)
                [Setup [1; 1; 1]%nat; AddObject (Some tt) tt] (__init__ empty_scene)) =
              Some (zeros [1; 1; 1]%nat uint8)).
  { vm_compute. reflexivity. }
  split; [exact H |].
  apply (clear_zeroes_and_resets_labels empty_scene
           [Setup [1; 1; 1]%nat; AddObject (Some tt) tt] _ H).
Defined.

Lemma ready_iff_volume_usable_witness :
  let self := run (Color := unit) [] (__init__ empty_scene) in
  ready self = false /\
  volume self = (Raise AttributeError, self) /\
  volume_setter "MainThread" (array3 int32 [[[2]]]) self =
    (Raise AttributeError, self) /\
  clear self = (Raise AttributeError, self).
Proof.
  cbv zeta. split; [reflexivity |].
  apply (proj1 (ready_iff_volume_usable empty_scene [] "MainThread"
                  (array3 int32 [[[2]]]))).
  reflexivity.
Defined.

Lemma scene_reinitialized_when_clean_witness :
  _dirty labelled = false /\
  Scene.visible_objects (_overview_scene labelled) = {[2]} /\
  exists self' cur,
    _handle_scene_init "MainThread" labelled = (Ok tt, self') /\
    ready self' = true /\
    volume self' = (Ok cur, self') /\
    shape cur = Scene.dataShape (_overview_scene labelled) /\
    dtype_of cur = uint8 /\
    (forall idx, item cur idx = 0) /\
    _dirty self' = false /\
    _overview_scene self' = _overview_scene labelled /\
    calls self' = calls labelled /\
    _mesh_thread self' = _mesh_thread labelled /\
    labelmgr self' = labelmgr labelled /\
    _cmap self' = _cmap labelled.
Proof.
  assert (Hd : _dirty labelled = false) by (vm_compute; reflexivity).
  split; [exact Hd |]. split; [vm_compute; reflexivity |].
  apply (scene_reinitialized_when_clean labelled Hd).
Defined.

Lemma volume_setter_off_main_thread_witness :
  let value := array3 int32 [[[2]]] in
  let vol := zeros [1; 1; 1]%nat uint8 in
  is_main_thread "Thread-1" = false /\
  any_ne (transpose value) vol = true /\
  exists self',
    volume_setter "Thread-1" value fresh = (Raise AssertionError, self') /\
    _volume self' = Some (assign vol (transpose value)) /\
    _dirty self' = true /\
    _overview_scene self' = _overview_scene fresh /\
    calls self' = calls fresh /\
    _dirty (snd (update "MainThread" self')) = false.
Proof.
  cbv zeta. split; [reflexivity |]. split; [reflexivity |].
  apply (volume_setter_off_main_thread "Thread-1" fresh
           (zeros [1; 1; 1]%nat uint8) (array3 int32 [[[2]]]));
    reflexivity.
Defined.

Lemma dirty_flag_down_on_main_thread_witness :
  let ops : list (op unit unit) :=
    [Setup [1; 1; 1]%nat;
     SetVolume "MainThread" (array3 int32 [[[2]]]);
     OnMeshGenerated "MainThread" 2 (Some tt);
     Clear;
     Update "MainThread"] in
  Forall on_main_thread ops /\
  _dirty (run ops (__init__ empty_scene)) = false.
Proof.
  cbv zeta.
  assert (H : Forall (on_main_thread (Color := unit) (Mesh := unit))
                [Setup [1; 1; 1]%nat;
                 SetVolume "MainThread" (array3 int32 [[[2]]]);
                 OnMeshGenerated "MainThread" 2 (Some tt);
                 Clear;
                 Update "MainThread"]).
  { repeat constructor. }
  split; [exact H |].
  apply (dirty_flag_down_on_main_thread empty_scene _ H).
Defined.

Lemma volume_setter_twice_witness :
  let value := numpy.mk [1; 1; 1]%nat int32 (fun _ => 7) in
  let self := run (Color := unit) [Setup [1; 1; 1]%nat] (__init__ empty_scene) in
  (forall idx, in_bounds idx (shape value) -> 0 <= item value idx < 256) /\
  let self1 := snd (volume_setter "MainThread" value self) in
  volume_setter "MainThread" value self1 = (Ok tt, self1).
Proof.
  cbv zeta.
  assert (Hrange : forall idx,
            in_bounds idx (shape (numpy.mk [1; 1; 1]%nat int32 (fun _ => 7))) ->
            0 <= item (numpy.mk [1; 1; 1]%nat int32 (fun _ => 7)) idx < 256).
  { intros idx _. cbn. lia. }
  split; [exact Hrange |].
  apply (volume_setter_twice empty_scene [Setup [1; 1; 1]%nat]
           "MainThread" "MainThread" (zeros [1; 1; 1]%nat uint8)
           (numpy.mk [1; 1; 1]%nat int32 (fun _ => 7)));
    [reflexivity | reflexivity | exact Hrange].
Defined.

Lemma allocator_and_colours_invariant_witness :
  let self := run (Color := unit)
                [Setup [1; 1; 1]%nat; AddObject (Some tt) tt] (__init__ empty_scene) in
  1 ∈ LabelManager._used (labelmgr self) /\
  1 <= 1 < NOBJECTS /\ is_Some (_cmap self !! 1).
Proof.
  cbv zeta.
  assert (H : 1 ∈ LabelManager._used (labelmgr (run (Color := unit)
                [Setup [1; 1; 1]%nat; AddObject (Some tt) tt] (__init__ empty_scene)))).
  { apply (bool_decide_unpack _). vm_compute. exact I. }
  split; [exact H |].
  apply (proj2 (proj2 (allocator_and_colours_invariant empty_scene
                         [Setup [1; 1; 1]%nat; AddObject (Some tt) tt])) 1 H).
Defined.

End RenderingManagerMore.
